(** * Grow: the gallery component of src/App.tsx

    A shallow embedding of the React component [App]: its state hooks become
    the record [AppState], every event handler becomes a function from state
    to state, and the remote catalogue (axios.get) becomes an argument [get]
    that answers a request for (page, limit).

    Conventions.
    - A JS [number] that holds a count, an offset or an identifier is a [Z].
    - The object [{ [key: number]: Artwork }] is a [gmap Z Artwork].
    - [toast.current?.show] appends to [toasts]; [op.current?.toggle/hide]
      act on [panelVisible]; both refs are taken to be mounted.
    - Every GET is recorded in [requests], oldest first.  [console.error]
      is not recorded.
    - A handler runs to completion before the next event is taken: the
      interleaving of two pending handlers is outside this model.
    - [rows] is never zero (the pager only reports positive page sizes):
      [Z.div] is [Math.floor] of the quotient for every non-zero divisor. *)

From stdpp Require Import gmap strings list sorting.

Local Open Scope Z_scope.

(** ** Data *)

(** interface Artwork (App.tsx, lines 12-20) *)
Record Artwork := mkArtwork {
  id : Z;
  title : string;
  place_of_origin : string;
  artist_display : string;
  inscriptions : string;
  date_start : Z;
  date_end : Z
}.

(** The messages handed to the Toast component. [detail] keeps the number
    that the template string interpolates rather than its decimal text. *)
Inductive Severity := sev_error | sev_info | sev_success.

Inductive Detail :=
| FailedToFetchArtworks
| FailedToFetchAdditionalArtworks
| SelectionTrimmedTo (n : Z)
| SelectionExpandedTo (n : Z).

Record ToastMessage := mkToast {
  severity : Severity;
  summary : string;
  detail : Detail
}.

Definition toastFetchError : ToastMessage :=
  mkToast sev_error "Error" FailedToFetchArtworks.
Definition toastAdditionalError : ToastMessage :=
  mkToast sev_error "Error" FailedToFetchAdditionalArtworks.
Definition toastTrimmed (n : Z) : ToastMessage :=
  mkToast sev_info "Selection Updated" (SelectionTrimmedTo n).
Definition toastExpanded (n : Z) : ToastMessage :=
  mkToast sev_success "Selection Updated" (SelectionExpandedTo n).

(** What [await axios.get(url)] gives back. [Rejected]: the promise rejects
    (network error, timeout, non-2xx status). [Resolved b]: a body [b] was
    received; [data] is [response.data.data], and [pagination] is [Some t]
    when [response.data.pagination] is an object whose [total] is [t], and
    [None] when the body has no [pagination] member, in which case reading
    [response.data.pagination.total] throws a TypeError. *)
Record ResponseBody := mkBody {
  data : list Artwork;
  pagination : option Z
}.

Inductive AxiosResult :=
| Rejected
| Resolved (b : ResponseBody).

(** The state hooks of the component (lines 23-30), with the two effect
    logs described above. *)
Record AppState := mkState {
  artworks : list Artwork;
  totalRecords : Z;
  first : Z;
  rows : Z;
  selectedArtworks : gmap Z Artwork;
  numberInput : option Z;
  panelVisible : bool;
  toasts : list ToastMessage;
  requests : list (Z * Z)
}.

Definition initialState : AppState :=
  mkState [] 0 0 12 ∅ None false [] [].

Definition setArtworks (v : list Artwork) (st : AppState) : AppState :=
  mkState v (totalRecords st) (first st) (rows st) (selectedArtworks st)
          (numberInput st) (panelVisible st) (toasts st) (requests st).
Definition setTotalRecords (v : Z) (st : AppState) : AppState :=
  mkState (artworks st) v (first st) (rows st) (selectedArtworks st)
          (numberInput st) (panelVisible st) (toasts st) (requests st).
Definition setFirst (v : Z) (st : AppState) : AppState :=
  mkState (artworks st) (totalRecords st) v (rows st) (selectedArtworks st)
          (numberInput st) (panelVisible st) (toasts st) (requests st).
Definition setRows (v : Z) (st : AppState) : AppState :=
  mkState (artworks st) (totalRecords st) (first st) v (selectedArtworks st)
          (numberInput st) (panelVisible st) (toasts st) (requests st).
Definition setSelectedArtworks (v : gmap Z Artwork) (st : AppState) : AppState :=
  mkState (artworks st) (totalRecords st) (first st) (rows st) v
          (numberInput st) (panelVisible st) (toasts st) (requests st).
Definition setNumberInput (v : option Z) (st : AppState) : AppState :=
  mkState (artworks st) (totalRecords st) (first st) (rows st) (selectedArtworks st)
          v (panelVisible st) (toasts st) (requests st).
Definition setPanelVisible (v : bool) (st : AppState) : AppState :=
  mkState (artworks st) (totalRecords st) (first st) (rows st) (selectedArtworks st)
          (numberInput st) v (toasts st) (requests st).
Definition showToast (m : ToastMessage) (st : AppState) : AppState :=
  mkState (artworks st) (totalRecords st) (first st) (rows st) (selectedArtworks st)
          (numberInput st) (panelVisible st) (toasts st ++ [m]) (requests st).
Definition logRequest (page limit : Z) (st : AppState) : AppState :=
  mkState (artworks st) (totalRecords st) (first st) (rows st) (selectedArtworks st)
          (numberInput st) (panelVisible st) (toasts st) (requests st ++ [(page, limit)]).

(** ** JavaScript helpers *)

(** [Object.keys(o)] of an object with integer keys, as numbers. Nothing
    below depends on the enumeration order: the one place that needs an
    order sorts the keys itself (line 85). *)
Definition Object_keys (o : gmap Z Artwork) : list Z := elements (dom o).

(** [keys.sort((a, b) => Number(a) - Number(b))] *)
Definition sortNumeric (keys : list Z) : list Z := merge_sort Z.le keys.

(** [arr.slice(0, e)]: a negative [e] counts from the end of the array. *)
Definition slice0 {A : Type} (e : Z) (arr : list A) : list A :=
  if e <? 0 then take (Z.to_nat (Z.of_nat (length arr) + e)) arr
  else take (Z.to_nat e) arr.

(** [Math.ceil(a / b)], for [b] other than zero. *)
Definition ceilDiv (a b : Z) : Z := - ((- a) / b).

(** [arr.find(artwork => artwork.id === k)] is defined *)
Definition findById (k : Z) (arr : list Artwork) : option Artwork :=
  List.find (λ artwork, id artwork =? k) arr.

(** ** The handlers *)

(** fetchArtworks (lines 36-45). [limit] is the [rows] of the render whose
    closure makes the call. The two setters run in order, so a body without
    [pagination] has already replaced the page array when the TypeError
    reaches the catch block. *)
Definition fetchArtworks (get : Z → Z → AxiosResult) (limit page : Z)
    (st : AppState) : AppState :=
  let st := logRequest page limit st in
  match get page limit with
  | Resolved response =>
      let st := setArtworks (data response) st in
      match pagination response with
      | Some total => setTotalRecords total st
      | None => showToast toastFetchError st
      end
  | Rejected => showToast toastFetchError st
  end.

(** onPageChange (lines 47-51) *)
Definition onPageChange (get : Z → Z → AxiosResult) (ev_first ev_rows ev_page : Z)
    (st : AppState) : AppState :=
  fetchArtworks get (rows st) (ev_page + 1) (setRows ev_rows (setFirst ev_first st)).

(** onSelectionChange (lines 53-68); [value] is [event.value]. *)
Definition onSelectionChange (value : list Artwork) (st : AppState) : AppState :=
  let newSelection := selectedArtworks st in
  let currentPageIds : gset Z := list_to_set (id <$> artworks st) in
  let newSelection :=
    foldl (λ (acc : gmap Z Artwork) k,
             if bool_decide (k ∈ currentPageIds) && negb (bool_decide (is_Some (findById k value)))
             then delete k acc else acc)
          newSelection (Object_keys newSelection) in
  let newSelection :=
    foldl (λ (acc : gmap Z Artwork) artwork, <[id artwork := artwork]> acc)
          newSelection value in
  setSelectedArtworks newSelection st.

(** toggleExpand (lines 70-72) *)
Definition toggleExpand (st : AppState) : AppState :=
  setPanelVisible (negb (panelVisible st)) st.

(** handleNumberChange (lines 74-76): [e.value ?? null] *)
Definition handleNumberChange (value : option Z) (st : AppState) : AppState :=
  setNumberInput value st.

(** The [for] loop of handleCustomSelection (lines 101-116). [remaining] is
    the number of iterations left, [totalPages - i]; the result is the final
    [newSelections] with the state carrying the requests and toasts of the
    loop. *)
Fixpoint fetchLoop (get : Z → Z → AxiosResult) (additionalSelectionsNeeded : Z)
    (remaining : nat) (i : Z) (newSelections : list Artwork) (st : AppState)
    : list Artwork * AppState :=
  match remaining with
  | O => (newSelections, st)
  | S remaining =>
      let page := first st / rows st + i + 1 in
      let st := logRequest page (rows st) st in
      match get page (rows st) with
      | Resolved response =>
          let pageArtworks := data response in
          let remainingCount :=
            additionalSelectionsNeeded - Z.of_nat (length newSelections) in
          let artworksToAdd := slice0 remainingCount pageArtworks in
          let newSelections := newSelections ++ artworksToAdd in
          if Z.of_nat (length newSelections) =? additionalSelectionsNeeded
          then (newSelections, st)
          else fetchLoop get additionalSelectionsNeeded remaining (i + 1) newSelections st
      | Rejected => (newSelections, showToast toastAdditionalError st)
      end
  end.

(** Lines 118-122: a collected record is stored only under a free key (a
    stored record is an object, hence truthy). *)
Definition addIfAbsent (currentSelection : gmap Z Artwork) (artwork : Artwork)
    : gmap Z Artwork :=
  match currentSelection !! id artwork with
  | Some _ => currentSelection
  | None => <[id artwork := artwork]> currentSelection
  end.

(** Lines 87-90: the reducer that copies the kept keys. *)
Definition copyEntry (currentSelection acc : gmap Z Artwork) (key : Z)
    : gmap Z Artwork :=
  match currentSelection !! key with
  | Some artwork => <[key := artwork]> acc
  | None => acc
  end.

(** handleCustomSelection (lines 78-130) *)
Definition handleCustomSelection (get : Z → Z → AxiosResult) (st : AppState)
    : AppState :=
  match numberInput st with
  | None => st
  | Some numberInput =>
      let currentSelection := selectedArtworks st in
      let currentSelectionCount := Z.of_nat (length (Object_keys currentSelection)) in
      let st :=
        if numberInput <=? currentSelectionCount then
          let sortedKeys := sortNumeric (Object_keys currentSelection) in
          let keysToKeep := slice0 numberInput sortedKeys in
          let newSelection := foldl (copyEntry currentSelection) ∅ keysToKeep in
          showToast (toastTrimmed numberInput) (setSelectedArtworks newSelection st)
        else
          let additionalSelectionsNeeded := numberInput - currentSelectionCount in
          if 0 <? additionalSelectionsNeeded then
            let totalPages := ceilDiv additionalSelectionsNeeded (rows st) in
            let '(newSelections, st) :=
              fetchLoop get additionalSelectionsNeeded (Z.to_nat totalPages) 0 [] st in
            let currentSelection := foldl addIfAbsent currentSelection newSelections in
            showToast (toastExpanded (Z.of_nat (length (Object_keys currentSelection))))
                      (setSelectedArtworks currentSelection st)
          else st
      in
      setPanelVisible false st
  end.

(** ** A sample catalogue, for the scenarios *)

Definition sampleArtwork (k : Z) : Artwork :=
  mkArtwork k "Untitled" "Chicago" "Unknown" "" 1900 1901.

(** Page [page] of a stable catalogue of [total] records numbered from 1. *)
Definition catalogue (total : Z) (page limit : Z) : AxiosResult :=
  let from := (page - 1) * limit in
  let count := Z.max 0 (Z.min limit (total - from)) in
  Resolved (mkBody (sampleArtwork <$> seqZ (from + 1) count) (Some total)).

(** The same server with the request for page [bad] rejected. *)
Definition failingAt (bad : Z) (get : Z → Z → AxiosResult) (page limit : Z)
    : AxiosResult :=
  if page =? bad then Rejected else get page limit.

(** The selection that holds the sample records of the given identifiers. *)
Definition selectionOf (l : list Z) : gmap Z Artwork :=
  list_to_map ((λ k, (k, sampleArtwork k)) <$> l).

(** The first page is shown with rows = 12; records 101, 103 and 113 were
    checked on other pages; the panel is open and 20 has been entered. *)
Definition st3 : AppState :=
  mkState (sampleArtwork <$> seqZ 1 12) 100 0 12 (selectionOf [101; 103; 113])
          (Some 20) true [] [].

(** The first page is shown, records 1 and 3 are checked, record 20 was
    checked on the second page, and the panel is open with an empty input. *)
Definition stIdle : AppState :=
  mkState (sampleArtwork <$> seqZ 1 12) 100 0 12 (selectionOf [1; 3; 20])
          None true [] [].

(** Record 1 is stored in the selection as it was when it was checked; the
    catalogue has since changed its title. *)
Definition staleArtwork : Artwork :=
  mkArtwork 1 "Earlier title" "Chicago" "Unknown" "" 1900 1901.

Definition stStale : AppState :=
  mkState (sampleArtwork <$> seqZ 1 12) 100 0 12 {[ 1 := staleArtwork ]}
          (Some 2) true [] [].


(** A server that answers with [data] but without [pagination]. *)
Definition noPagination (page limit : Z) : AxiosResult :=
  Resolved (mkBody [sampleArtwork 500] None).

(** A server that cannot be reached. *)
Definition unreachable (page limit : Z) : AxiosResult := Rejected.

#[global] Instance Artwork_eq_dec : EqDecision Artwork.
Proof. solve_decision. Defined.

#[global] Instance Severity_eq_dec : EqDecision Severity.
Proof. solve_decision. Defined.

#[global] Instance Detail_eq_dec : EqDecision Detail.
Proof. solve_decision. Defined.

#[global] Instance ToastMessage_eq_dec : EqDecision ToastMessage.
Proof. solve_decision. Defined.

(** ** Vocabulary of the statements *)

(** The page number the pager shows: onPageChange requests [event.page + 1]
    for the zero-based page index [first / rows]. *)
Definition displayedPage (st : AppState) : Z := first st / rows st + 1.

(** The records a page contributes to the collection: the body's [data], and
    nothing when the request is rejected. *)
Definition pageRecords (get : Z → Z → AxiosResult) (limit page : Z) : list Artwork :=
  match get page limit with
  | Resolved response => data response
  | Rejected => []
  end.

(** The value of [newSelections] at line 118, and the state in which the
    loop leaves the logs, for a submitted [numberInput] in the expansion
    branch. *)
Definition expansionRun (get : Z → Z → AxiosResult) (numberInput : Z) (st : AppState)
    : list Artwork * AppState :=
  let needed := numberInput - Z.of_nat (length (Object_keys (selectedArtworks st))) in
  fetchLoop get needed (Z.to_nat (ceilDiv needed (rows st))) 0 [] st.

(** The records collected by the loop. *)
Definition collected (get : Z → Z → AxiosResult) (numberInput : Z) (st : AppState)
    : list Artwork :=
  (expansionRun get numberInput st).1.

(** The requests a handler added to the log, oldest first. *)
Definition issued (st st' : AppState) : list (Z * Z) :=
  drop (length (requests st)) (requests st').

(** The toasts a handler showed, oldest first. *)
Definition shown (st st' : AppState) : list ToastMessage :=
  drop (length (toasts st)) (toasts st').

(** Identifiers of a list of records that are not selected yet, each once. *)
Definition freshIds (sel : gmap Z Artwork) (l : list Artwork) : list Z :=
  remove_dups (filter (λ k, sel !! k = None) (id <$> l)).

(** Among the responses of the model, whose bodies all have a [data] array,
    a response honours the contract of the endpoint when it resolves with
    a body that also has [pagination.total]. *)
Definition honoursContract (r : AxiosResult) : bool :=
  match r with
  | Resolved response => bool_decide (is_Some (pagination response))
  | Rejected => false
  end.

(** ** The component as a reactive system *)

(** The effect hook of lines 32-34: on mount, page 1 is requested with the
    page size of the first render. *)
Definition mount (get : Z → Z → AxiosResult) (st : AppState) : AppState :=
  fetchArtworks get (rows st) 1 st.

(** The events the rendered tree wires to the handlers (lines 147-190):
    the pager, the table's selection column, the panel's toggle button, the
    numeric input and the submit button. An event that reaches the network
    carries the answers the server gives while it is handled. *)
Inductive Event :=
| Mounted (get : Z → Z → AxiosResult)
| PageChanged (get : Z → Z → AxiosResult) (ev_first ev_rows ev_page : Z)
| SelectionChanged (value : list Artwork)
| ToggleClicked
| NumberChanged (value : option Z)
| SubmitClicked (get : Z → Z → AxiosResult).

Definition handle (st : AppState) (ev : Event) : AppState :=
  match ev with
  | Mounted get => mount get st
  | PageChanged get ev_first ev_rows ev_page =>
      onPageChange get ev_first ev_rows ev_page st
  | SelectionChanged value => onSelectionChange value st
  | ToggleClicked => toggleExpand st
  | NumberChanged value => handleNumberChange value st
  | SubmitClicked get => handleCustomSelection get st
  end.

Definition run (evs : list Event) (st : AppState) : AppState :=
  foldl handle st evs.

(** Every record of the selection is filed under its own identifier. *)
Definition keyedById (sel : gmap Z Artwork) : Prop :=
  ∀ k a, sel !! k = Some a → id a = k.

(** The number of keys [slice(0, e)] keeps of [len] keys. *)
Definition keptCount (e : Z) (len : nat) : nat :=
  if e <? 0 then Z.to_nat (Z.of_nat len + e) else Nat.min (Z.to_nat e) len.

(** ** Helper lemmas: JavaScript helpers *)

Lemma slice0_nonneg {A} (e : Z) (arr : list A) :
  0 ≤ e → slice0 e arr = take (Z.to_nat e) arr.
Proof.
  intros He. unfold slice0.
  destruct (Z.ltb_spec e 0); [lia | done].
Qed.

Lemma Object_keys_length (o : gmap Z Artwork) :
  length (Object_keys o) = size o.
Proof. unfold Object_keys. by rewrite <- (size_dom (D:=gset Z) o). Qed.

Lemma elem_of_Object_keys (o : gmap Z Artwork) k :
  k ∈ Object_keys o ↔ is_Some (o !! k).
Proof. unfold Object_keys. by rewrite elem_of_elements, elem_of_dom. Qed.

Lemma NoDup_Object_keys (o : gmap Z Artwork) : NoDup (Object_keys o).
Proof. unfold Object_keys. apply NoDup_elements. Qed.

Lemma findById_Some k arr :
  is_Some (findById k arr) ↔ ∃ a, a ∈ arr ∧ id a = k.
Proof.
  unfold findById. split.
  - intros [a Ha]. apply find_some in Ha as [Hin Hk].
    exists a. split; [by apply list_elem_of_In | lia].
  - intros (a & Hin & Hk).
    destruct (find _ arr) as [b|] eqn:Hf; [by eexists |].
    apply list_elem_of_In in Hin.
    pose proof (find_none _ _ Hf _ Hin) as Hn. simpl in Hn. lia.
Qed.

Lemma findById_elem k arr a :
  findById k arr = Some a → a ∈ arr ∧ id a = k.
Proof.
  unfold findById. intros Ha. apply find_some in Ha as [Hin Hk].
  split; [by apply list_elem_of_In | lia].
Qed.

Lemma take_short {A} (n : nat) (l : list A) :
  (length (take n l) < n)%nat → take n l = l.
Proof.
  rewrite length_take. intros H. apply take_ge. lia.
Qed.

Lemma remove_dups_length_le (l : list Z) :
  (length (remove_dups l) ≤ length l)%nat.
Proof.
  induction l as [|x l IH]; simpl; [done |].
  destruct (decide_rel _ x l); simpl; lia.
Qed.


Lemma elem_of_concat {A} (x : A) (ls : list (list A)) :
  x ∈ concat ls ↔ ∃ l, l ∈ ls ∧ x ∈ l.
Proof.
  rewrite list_elem_of_In, in_concat.
  split; intros (l & Hl & Hx); exists l; by rewrite ?list_elem_of_In in *.
Qed.

Lemma ceilDiv_pos a b : 0 < a → 0 < b → 0 < ceilDiv a b.
Proof.
  intros Ha Hb. unfold ceilDiv.
  assert (- a / b < 0); [| lia].
  apply Z.div_lt_upper_bound; lia.
Qed.


(** ** Helper lemmas: the fetch loop *)

(** Reduce the record projections without unfolding [seqZ]. *)
Ltac proj_simpl :=
  cbn [fst snd requests toasts logRequest showToast first rows] in *.

Section FetchLoop.
Variable get : Z → Z → AxiosResult.
Variable needed : Z.

(** The loop only writes to the two logs. *)
Lemma fetchLoop_frame remaining : ∀ i acc st,
  let st' := (fetchLoop get needed remaining i acc st).2 in
  artworks st' = artworks st ∧ totalRecords st' = totalRecords st ∧
  first st' = first st ∧ rows st' = rows st ∧
  selectedArtworks st' = selectedArtworks st ∧
  numberInput st' = numberInput st ∧ panelVisible st' = panelVisible st.
Proof.
  induction remaining as [|n IH]; intros i acc st; simpl; [done |].
  destruct (get _ _) as [|b]; simpl; [done |].
  destruct (_ =? needed); simpl; [done |].
  apply (IH (i + 1) _ (logRequest _ _ st)).
Qed.

(** One run of the loop, entered with fewer than [needed] records in
    hand: [k] pages are requested, consecutive from the page of index
    [i]; the result is the first [needed] records of what was in hand
    followed by the pages' records in request order; and the loop ends
    without a toast (budget used up or quota reached), or with the error
    toast at the first rejected page. *)
Lemma fetchLoop_run remaining : ∀ i acc st,
  Z.of_nat (length acc) < needed →
  let r := fetchLoop get needed remaining i acc st in
  let p0 := first st / rows st + i + 1 in
  ∃ k : nat,
    (k ≤ remaining)%nat ∧ (remaining ≠ 0%nat → k ≠ 0%nat) ∧
    requests r.2 = requests st ++ ((λ p, (p, rows st)) <$> seqZ p0 (Z.of_nat k)) ∧
    r.1 = take (Z.to_nat needed)
               (acc ++ concat (pageRecords get (rows st) <$> seqZ p0 (Z.of_nat k))) ∧
    ((toasts r.2 = toasts st ∧
      (∀ p, p0 ≤ p < p0 + Z.of_nat k → get p (rows st) ≠ Rejected) ∧
      (k = remaining ∨ Z.of_nat (length r.1) = needed))
     ∨
     (toasts r.2 = toasts st ++ [toastAdditionalError] ∧
      k ≠ 0%nat ∧ get (p0 + Z.of_nat k - 1) (rows st) = Rejected ∧
      (∀ p, p0 ≤ p < p0 + Z.of_nat k - 1 → get p (rows st) ≠ Rejected) ∧
      r.1 = acc ++ concat (pageRecords get (rows st) <$> seqZ p0 (Z.of_nat k - 1)))).
Proof.
  induction remaining as [|n IH]; intros i acc st Hacc; simpl.
  - exists 0%nat. simpl. rewrite !app_nil_r.
    split_and!; [done | done | done | by rewrite take_ge by lia |].
    left. split_and!; [done | intros; lia | by left].
  - set (p0 := first st / rows st + i + 1).
    destruct (get p0 (rows st)) as [|b] eqn:Hget.
    + (* the catch block *)
      exists 1%nat. proj_simpl.
      change (Z.of_nat 1) with 1. rewrite seqZ_cons, seqZ_nil by lia. simpl.
      unfold pageRecords at 1. rewrite Hget. simpl. rewrite !app_nil_r.
      split_and!; [lia | done | done | by rewrite take_ge by lia |].
      right. split_and!; [done | done | | intros; lia | done].
      by replace (p0 + 1 - 1) with p0 by lia.
    + rewrite slice0_nonneg by lia.
      set (acc' := acc ++ take _ (data b)).
      assert (Hacc' : acc' = take (Z.to_nat needed) (acc ++ data b)).
      { unfold acc'. rewrite take_app, (take_ge acc) by lia.
        do 2 f_equal. lia. }
      assert (Hone : seqZ p0 1 = [p0]) by (by rewrite seqZ_cons, seqZ_nil by lia).
      destruct (Z.eqb_spec (Z.of_nat (length acc')) needed) as [Hfull|Hnot]; simpl.
      * (* line 110: the quota is reached *)
        exists 1%nat. change (Z.of_nat 1) with 1. rewrite Hone. proj_simpl. simpl concat. simpl fmap.
        unfold pageRecords at 1. rewrite Hget, app_nil_r.
        split_and!; [lia | done | done | done |].
        left. split_and!; [done | | by right].
        intros p Hp. replace p with p0 by lia. by rewrite Hget.
      * assert (Hlt : Z.of_nat (length acc') < needed).
        { rewrite Hacc', length_take in *. lia. }
        assert (Hall : acc' = acc ++ data b).
        { rewrite Hacc'. apply take_short. rewrite <- Hacc'. lia. }
        destruct (IH (i + 1) acc' (logRequest p0 (rows st) st) Hlt)
          as (k & Hk & _ & Hreq & Hres & Hend).
        proj_simpl.
        replace (first st / rows st + (i + 1) + 1) with (p0 + 1) in * by (unfold p0; lia).
        assert (Hseq : ∀ m, 0 ≤ m → seqZ p0 (1 + m) = p0 :: seqZ (p0 + 1) m).
        { intros m Hm. rewrite seqZ_cons by lia. do 2 f_equal; lia. }
        exists (S k). rewrite Nat2Z.inj_succ, <- Z.add_1_l, Hseq by lia.
        proj_simpl. simpl concat. simpl fmap.
        unfold pageRecords at 1. rewrite Hget.
        split_and!; [lia | done | by rewrite Hreq, <- app_assoc
                    | by rewrite Hres, Hall, <- app_assoc |].
        destruct Hend as [(Ht & Hok & Hstop) | (Ht & Hk0 & Hrej & Hok & Hraw)].
        -- left. split_and!; [done | | destruct Hstop; [left; lia | by right]].
           intros p Hp. destruct (decide (p = p0)) as [->|]; [by rewrite Hget |].
           apply Hok. lia.
        -- right. split_and!; [done | done | | |].
           ++ rewrite <- Hrej. f_equal. lia.
           ++ intros p Hp. destruct (decide (p = p0)) as [->|]; [by rewrite Hget |].
              apply Hok. lia.
           ++ rewrite Hraw, Hall, <- app_assoc.
              replace (1 + Z.of_nat k - 1) with (1 + (Z.of_nat k - 1)) by lia.
              rewrite Hseq by lia. simpl concat. simpl fmap.
              unfold pageRecords at 2. by rewrite Hget.
Qed.
End FetchLoop.

(** ** Helper lemmas: inserting the collected records (lines 118-122) *)

Lemma lookup_foldl_addIfAbsent (l : list Artwork) : ∀ (sel : gmap Z Artwork) k,
  foldl addIfAbsent sel l !! k =
    match sel !! k with
    | Some a => Some a
    | None => findById k l
    end.
Proof.
  induction l as [|a l IH]; intros sel k; simpl.
  - by destruct (sel !! k).
  - rewrite IH. unfold addIfAbsent.
    destruct (Z.eqb_spec (id a) k) as [->|Hne].
    + destruct (sel !! k) as [b|] eqn:Hk; [by rewrite Hk |].
      by rewrite lookup_insert_eq.
    + destruct (sel !! id a) eqn:Ha; [done |].
      by rewrite lookup_insert_ne.
Qed.

Lemma dom_foldl_addIfAbsent (l : list Artwork) (sel : gmap Z Artwork) :
  dom (foldl addIfAbsent sel l) = dom sel ∪ list_to_set (id <$> l).
Proof.
  apply set_eq. intros k.
  rewrite elem_of_union, !elem_of_dom, elem_of_list_to_set, lookup_foldl_addIfAbsent.
  rewrite list_elem_of_fmap.
  destruct (sel !! k) as [b|] eqn:Hk.
  - split; [by left | by eexists].
  - rewrite findById_Some. split.
    + intros (a & Ha & Hid). right. by exists a.
    + intros [[? [=]] | (a & Hid & Ha)]. by exists a.
Qed.

Lemma elem_of_freshIds (sel : gmap Z Artwork) l k :
  k ∈ freshIds sel l ↔ sel !! k = None ∧ ∃ a, a ∈ l ∧ id a = k.
Proof.
  unfold freshIds. rewrite elem_of_remove_dups, list_elem_of_filter, list_elem_of_fmap.
  split.
  - intros (Hk & a & -> & Ha). split; [done | by exists a].
  - intros (Hk & a & Ha & <-). split; [done | by exists a].
Qed.

Lemma size_foldl_addIfAbsent (l : list Artwork) (sel : gmap Z Artwork) :
  size (foldl addIfAbsent sel l) = (size sel + length (freshIds sel l))%nat.
Proof.
  rewrite <- (size_dom (D:=gset Z) (foldl addIfAbsent sel l)).
  rewrite <- (size_dom (D:=gset Z) sel).
  assert (Hdom : dom (foldl addIfAbsent sel l)
                 = dom sel ∪ list_to_set (C:=gset Z) (freshIds sel l)).
  { rewrite dom_foldl_addIfAbsent. apply set_eq. intros k.
    rewrite !elem_of_union, !elem_of_list_to_set, elem_of_freshIds,
      list_elem_of_fmap, elem_of_dom.
    destruct (sel !! k) as [b|] eqn:Hk.
    - split; intros _; left; by eexists.
    - split.
      + intros [[? [=]] | (a & -> & Ha)]. right. split; [done | by exists a].
      + intros [[? [=]] | (_ & a & Ha & <-)]. right. by exists a. }
  rewrite Hdom, size_union.
  - f_equal. apply size_list_to_set, NoDup_remove_dups.
  - intros k. rewrite elem_of_dom, elem_of_list_to_set, elem_of_freshIds.
    intros [? Hs] [Hn _]. by rewrite Hn in Hs.
Qed.

Lemma length_freshIds_le (sel : gmap Z Artwork) l :
  (length (freshIds sel l) ≤ length l)%nat.
Proof.
  unfold freshIds.
  etrans; [apply remove_dups_length_le |].
  etrans; [apply length_filter |]. by rewrite length_fmap.
Qed.


(** ** Helper lemmas: the two branches of handleCustomSelection *)

Lemma handleCustomSelection_expand get st n :
  numberInput st = Some n →
  Z.of_nat (size (selectedArtworks st)) < n →
  handleCustomSelection get st =
    let r := expansionRun get n st in
    let currentSelection := foldl addIfAbsent (selectedArtworks st) r.1 in
    setPanelVisible false
      (showToast (toastExpanded (Z.of_nat (size currentSelection)))
                 (setSelectedArtworks currentSelection r.2)).
Proof.
  intros Hn Hlt. unfold handleCustomSelection, expansionRun. rewrite Hn.
  rewrite !Object_keys_length.
  destruct (Z.leb_spec n (Z.of_nat (size (selectedArtworks st)))); [lia |].
  destruct (Z.ltb_spec 0 (n - Z.of_nat (size (selectedArtworks st)))); [| lia].
  destruct (fetchLoop _ _ _ _ _ _) as [coll st1]. simpl.
  by rewrite Object_keys_length.
Qed.

Lemma handleCustomSelection_trim get st n :
  numberInput st = Some n →
  n ≤ Z.of_nat (size (selectedArtworks st)) →
  handleCustomSelection get st =
    let currentSelection := selectedArtworks st in
    let keysToKeep := slice0 n (sortNumeric (Object_keys currentSelection)) in
    setPanelVisible false
      (showToast (toastTrimmed n)
         (setSelectedArtworks (foldl (copyEntry currentSelection) ∅ keysToKeep) st)).
Proof.
  intros Hn Hle. unfold handleCustomSelection. rewrite Hn.
  rewrite !Object_keys_length.
  by destruct (Z.leb_spec n (Z.of_nat (size (selectedArtworks st)))); [| lia].
Qed.

(** ** Helper lemmas: reconciliation (lines 57-65) *)

Lemma lookup_foldl_delete (P : Z → bool) (keys : list Z) :
  ∀ (m : gmap Z Artwork) k,
  foldl (λ (acc : gmap Z Artwork) j, if P j then delete j acc else acc) m keys !! k =
    if bool_decide (k ∈ keys) && P k then None else m !! k.
Proof.
  induction keys as [|x keys IH]; intros m k; simpl; [done |].
  rewrite IH. destruct (decide (x = k)) as [->|Hne].
  - rewrite (bool_decide_eq_true_2 (k ∈ k :: keys)) by left. simpl.
    destruct (P k); simpl.
    + rewrite lookup_delete_eq. by destruct (_ && _).
    + by rewrite andb_false_r.
  - assert (Hin : bool_decide (k ∈ x :: keys) = bool_decide (k ∈ keys)).
    { apply bool_decide_ext. rewrite elem_of_cons.
      split; [intros [?|?]; [congruence | done] | by right]. }
    rewrite Hin. destruct (_ && _); [done |].
    destruct (P x); [by rewrite lookup_delete_ne | done].
Qed.

(** Inserting the checked records leaves a key alone when every checked
    record filed under it is the record already stored there. *)
Lemma lookup_foldl_insert_same (value : list Artwork) :
  ∀ (m : gmap Z Artwork) k,
  (∀ a, a ∈ value → id a = k → m !! k = Some a) →
  foldl (λ (acc : gmap Z Artwork) a, <[id a := a]> acc) m value !! k = m !! k.
Proof.
  induction value as [|a value IH]; intros m k Hsame; simpl; [done |].
  assert (Hk : <[id a := a]> m !! k = m !! k).
  { destruct (decide (id a = k)) as [<-|Hne].
    - rewrite lookup_insert_eq. symmetry. apply Hsame; [left | done].
    - by rewrite lookup_insert_ne. }
  rewrite IH, Hk; [done |].
  intros b Hb Hid. rewrite Hk. apply Hsame; [by right | done].
Qed.

(** The selection after the first loop of onSelectionChange. *)
Lemma onSelectionChange_lookup value st k :
  (∀ a, a ∈ value → id a = k → selectedArtworks st !! k = Some a) →
  selectedArtworks (onSelectionChange value st) !! k =
    if bool_decide (k ∈ id <$> artworks st)
       && negb (bool_decide (is_Some (findById k value)))
    then None else selectedArtworks st !! k.
Proof.
  intros Hsame. unfold onSelectionChange. simpl.
  set (P := λ j : Z, bool_decide (j ∈ (list_to_set (id <$> artworks st) : gset Z))
                     && negb (bool_decide (is_Some (findById j value)))).
  assert (Hstep : ∀ j, foldl (λ (acc : gmap Z Artwork) j, if P j then delete j acc else acc)
                    (selectedArtworks st) (Object_keys (selectedArtworks st)) !! j
                  = if P j then None else selectedArtworks st !! j).
  { intros j. rewrite lookup_foldl_delete.
    destruct (P j); [rewrite andb_true_r | by rewrite andb_false_r].
    case_bool_decide as Hin; [done |].
    rewrite elem_of_Object_keys in Hin. by apply eq_None_not_Some. }
  assert (HP : P k = bool_decide (k ∈ id <$> artworks st)
                 && negb (bool_decide (is_Some (findById k value)))).
  { unfold P. f_equal. apply bool_decide_ext, elem_of_list_to_set. }
  rewrite lookup_foldl_insert_same, Hstep, HP; [done |].
  intros a Ha Hid. rewrite Hstep, HP.
  rewrite (bool_decide_eq_true_2 (is_Some (findById k value))), andb_false_r.
  - by apply Hsame.
  - apply findById_Some. by exists a.
Qed.

(** ** Helper lemmas: trimming (lines 85-90) *)

Lemma lookup_foldl_copyEntry (sel : gmap Z Artwork) (keys : list Z) :
  ∀ (acc : gmap Z Artwork) k,
  foldl (copyEntry sel) acc keys !! k =
    match (if bool_decide (k ∈ keys) then sel !! k else None) with
    | Some a => Some a
    | None => acc !! k
    end.
Proof.
  induction keys as [|x keys IH]; intros acc k; simpl; [done |].
  rewrite IH. unfold copyEntry.
  destruct (decide (x = k)) as [->|Hne].
  - rewrite (bool_decide_eq_true_2 (k ∈ k :: keys)) by left.
    destruct (sel !! k) as [a|] eqn:Hk.
    + rewrite lookup_insert_eq. by destruct (bool_decide _).
    + by destruct (bool_decide _).
  - assert (Hin : bool_decide (k ∈ x :: keys) = bool_decide (k ∈ keys)).
    { apply bool_decide_ext. rewrite elem_of_cons.
      split; [intros [?|?]; [congruence | done] | by right]. }
    rewrite Hin.
    destruct (if bool_decide (k ∈ keys) then sel !! k else None); [done |].
    destruct (sel !! x); [by rewrite lookup_insert_ne | done].
Qed.

Lemma sortNumeric_Permutation keys : sortNumeric keys ≡ₚ keys.
Proof. apply merge_sort_Permutation. Qed.

Lemma sortNumeric_sorted keys : StronglySorted Z.le (sortNumeric keys).
Proof. apply (StronglySorted_merge_sort Z.le). Qed.

(** ** Scenarios of the specification, run on the model *)

(** Selection {101, 103, 113}, trimmed to 2: {101, 103} is kept. *)
Example scenario_trim :
  let st := handleCustomSelection (catalogue 1000) (setNumberInput (Some 2) st3) in
  dom (selectedArtworks st) = ({[101; 103]} : gset Z)
  ∧ toasts st = [toastTrimmed 2] ∧ panelVisible st = false.
Proof. vm_compute. done. Qed.

(** Selection of size 3, rows = 12, target 20: two pages are requested,
    the displayed page and the one after it, and the selection reaches 20. *)
Example scenario_expand :
  let st := handleCustomSelection (catalogue 1000) st3 in
  size (selectedArtworks st) = 20%nat
  ∧ requests st = [(1, 12); (2, 12)]
  ∧ toasts st = [toastExpanded 20] ∧ panelVisible st = false.
Proof. vm_compute. done. Qed.

(** The same with the second request rejected: 3 + 12 records. *)
Example scenario_expand_failure :
  let st := handleCustomSelection (failingAt 2 (catalogue 1000)) st3 in
  size (selectedArtworks st) = 15%nat
  ∧ requests st = [(1, 12); (2, 12)]
  ∧ toasts st = [toastAdditionalError; toastExpanded 15].
Proof. vm_compute. done. Qed.

(** Checking 101 and 103 on the first page, then 113 on the second. *)
Example scenario_persistence :
  let page1 := sampleArtwork <$> seqZ 101 12 in
  let page2 := sampleArtwork <$> seqZ 113 12 in
  let get (page limit : Z) :=
    Resolved (mkBody (if page =? 1 then page1 else page2) (Some 24)) in
  let s0 := fetchArtworks get 12 1 initialState in
  let s1 := onSelectionChange [sampleArtwork 101] s0 in
  let s2 := onSelectionChange [sampleArtwork 101; sampleArtwork 103] s1 in
  let s3 := onPageChange get 12 12 1 s2 in
  let s4 := onSelectionChange
              [sampleArtwork 101; sampleArtwork 103; sampleArtwork 113] s3 in
  let s5 := onPageChange get 0 12 0 s4 in
  dom (selectedArtworks s2) = ({[101; 103]} : gset Z)
  ∧ artworks s3 = page2
  ∧ dom (selectedArtworks s5) = ({[101; 103; 113]} : gset Z)
  ∧ artworks s5 = page1.
Proof. vm_compute. done. Qed.

(** ** Helper lemmas: the page fetch *)

Lemma fetchArtworks_selectedArtworks get limit page st :
  selectedArtworks (fetchArtworks get limit page st) = selectedArtworks st.
Proof.
  unfold fetchArtworks.
  destruct (get page limit) as [|b]; [done |].
  by destruct (pagination b).
Qed.

Lemma issued_app st st' new : requests st' = requests st ++ new → issued st st' = new.
Proof. intros H. unfold issued. by rewrite H, drop_app_length. Qed.

Lemma shown_app st st' new : toasts st' = toasts st ++ new → shown st st' = new.
Proof. intros H. unfold shown. by rewrite H, drop_app_length. Qed.


(** ** Helper lemma: one submit in the expansion branch *)

Lemma expansion_summary get st target :
  numberInput st = Some target →
  Z.of_nat (size (selectedArtworks st)) < target →
  let needed := target - Z.of_nat (size (selectedArtworks st)) in
  let p0 := displayedPage st in
  let st' := handleCustomSelection get st in
  let coll := collected get target st in
  selectedArtworks st' = foldl addIfAbsent (selectedArtworks st) coll
  ∧ ∃ k : nat,
      Z.of_nat k ≤ Z.max 0 (ceilDiv needed (rows st))
      ∧ (0 < ceilDiv needed (rows st) → k ≠ 0%nat)
      ∧ issued st st' = (λ p, (p, rows st)) <$> seqZ p0 (Z.of_nat k)
      ∧ coll = take (Z.to_nat needed)
                    (concat (pageRecords get (rows st) <$> seqZ p0 (Z.of_nat k)))
      ∧ ((shown st st' = [toastExpanded (Z.of_nat (size (selectedArtworks st')))]
          ∧ (∀ p, p0 ≤ p < p0 + Z.of_nat k → get p (rows st) ≠ Rejected)
          ∧ (Z.of_nat k = Z.max 0 (ceilDiv needed (rows st))
             ∨ Z.of_nat (length coll) = needed))
         ∨
         (shown st st' = [toastAdditionalError;
                          toastExpanded (Z.of_nat (size (selectedArtworks st')))]
          ∧ k ≠ 0%nat
          ∧ get (p0 + Z.of_nat k - 1) (rows st) = Rejected
          ∧ (∀ p, p0 ≤ p < p0 + Z.of_nat k - 1 → get p (rows st) ≠ Rejected)
          ∧ coll = concat (pageRecords get (rows st) <$> seqZ p0 (Z.of_nat k - 1)))).
Proof.
  intros Hn Hlt needed p0 st' coll. subst st'.
  rewrite (handleCustomSelection_expand get st target Hn Hlt).
  subst coll. unfold collected, expansionRun. rewrite Object_keys_length.
  fold needed.
  set (total := Z.to_nat (ceilDiv needed (rows st))).
  assert (Hneeded : Z.of_nat (length (@nil Artwork)) < needed) by (simpl; lia).
  destruct (fetchLoop_run get needed total 0 [] st Hneeded)
    as (k & Hk & Hk0 & Hreq & Hres & Hend).
  pose proof (fetchLoop_frame get needed total 0 [] st) as (_ & _ & _ & _ & _ & _ & _).
  set (r := fetchLoop get needed total 0 [] st) in *.
  replace (first st / rows st + 0 + 1) with p0 in * by (unfold p0, displayedPage; lia).
  simpl in Hres. cbn zeta. split; [done |].
  exists k. split_and!.
  - unfold total in Hk. lia.
  - unfold total in Hk0. intros Hpos. apply Hk0. lia.
  - by apply issued_app.
  - done.
  - destruct Hend as [(Ht & Hok & Hstop) | (Ht & Hk1 & Hrej & Hok & Hraw)].
    + left. split_and!; [| done |].
      * apply shown_app. simpl. by rewrite Ht.
      * destruct Hstop as [->|Hfull]; [left; unfold total; lia | by right].
    + right. split_and!; [| done | done | done | done].
      apply shown_app. simpl. by rewrite Ht, <- app_assoc.
Qed.

(** * Properties of the specification *)

(** C10: when the numeric input is empty (null) at submit,
    handleCustomSelection returns at once: the whole state is left as it
    was, so the selection is unchanged, no request is issued, no toast is
    shown and the overlay panel stays as it is. *)
Theorem handleCustomSelection_null_input get st :
  numberInput st = None → handleCustomSelection get st = st.
Proof. intros Hn. unfold handleCustomSelection. by rewrite Hn. Qed.

Lemma handleCustomSelection_null_input_witness :
  numberInput stIdle = None
  ∧ handleCustomSelection (catalogue 100) stIdle = stIdle.
Proof.
  split; [reflexivity |].
  apply (handleCustomSelection_null_input (catalogue 100) stIdle). reflexivity.
Defined.

(** C9: in the expansion branch (target above the selection size), a record
    stored under an already selected identifier is the same afterwards,
    whatever the fetched pages return under that identifier. *)
Theorem expansion_keeps_stored_records get st target k a :
  numberInput st = Some target →
  Z.of_nat (size (selectedArtworks st)) < target →
  selectedArtworks st !! k = Some a →
  selectedArtworks (handleCustomSelection get st) !! k = Some a.
Proof.
  intros Hn Hlt Hk.
  rewrite (handleCustomSelection_expand get st target Hn Hlt). simpl.
  by rewrite lookup_foldl_addIfAbsent, Hk.
Qed.

Lemma expansion_keeps_stored_records_witness :
  pageRecords (catalogue 100) 12 1 !! 0%nat = Some (sampleArtwork 1)
  ∧ sampleArtwork 1 ≠ staleArtwork
  ∧ selectedArtworks (handleCustomSelection (catalogue 100) stStale) !! 1
    = Some staleArtwork.
Proof.
  split; [reflexivity |]. split; [discriminate |].
  apply (expansion_keeps_stored_records (catalogue 100) stStale 2 1 staleArtwork);
    [reflexivity | vm_compute; reflexivity | reflexivity].
Defined.

(** C8, as stated, fails: a response whose body lacks [pagination] breaks
    the contract, yet the page array has already been replaced by the
    body's [data] when the error is caught. *)
Lemma fetchArtworks_malformed_counterexample :
  ¬ (∀ get limit page st,
       honoursContract (get page limit) = false →
       let st' := fetchArtworks get limit page st in
       artworks st' = artworks st
       ∧ totalRecords st' = totalRecords st
       ∧ toastFetchError ∈ toasts st').
Proof.
  intros H.
  destruct (H noPagination 12 1 stIdle eq_refl) as [Ha _].
  vm_compute in Ha. discriminate Ha.
Qed.

(** C8, amended: when the request itself fails (the promise rejects), the
    page array and the stored total are unchanged and the error toast is
    shown; when the response resolves with a body that has [data] but no
    [pagination], the stored total is unchanged and the error toast is
    shown. *)
Theorem fetchArtworks_failure get limit page st :
  honoursContract (get page limit) = false →
  let st' := fetchArtworks get limit page st in
  totalRecords st' = totalRecords st
  ∧ toasts st' = toasts st ++ [toastFetchError]
  ∧ (get page limit = Rejected → artworks st' = artworks st).
Proof.
  intros Hbad. unfold fetchArtworks.
  destruct (get page limit) as [|b]; [done |].
  simpl in Hbad. destruct (pagination b) as [t|]; [| done].
  by rewrite bool_decide_eq_true_2 in Hbad.
Qed.

Lemma fetchArtworks_failure_witness :
  let st' := fetchArtworks unreachable 12 2 stIdle in
  honoursContract (unreachable 2 12) = false
  ∧ totalRecords st' = 100
  ∧ toasts st' = [toastFetchError]
  ∧ artworks st' = artworks stIdle.
Proof.
  pose proof (fetchArtworks_failure unreachable 12 2 stIdle eq_refl) as (Ht & Hs & Ha).
  split; [reflexivity |]. split; [exact Ht |]. split; [exact Hs |].
  apply Ha. reflexivity.
Defined.

(** C4: reconciliation leaves the entry of every identifier that is not on
    the visible page as it was. The event may carry records of other pages
    (the table is handed the whole selection), provided each is the record
    stored under its identifier; an event that carries only records of the
    visible page meets this trivially. Page navigation does not write to
    the selection either, so an entry survives going to another page and
    back. *)
Theorem onSelectionChange_other_pages value st k :
  k ∉ id <$> artworks st →
  (∀ a, a ∈ value → id a = k → selectedArtworks st !! k = Some a) →
  selectedArtworks (onSelectionChange value st) !! k = selectedArtworks st !! k
  ∧ ∀ get ev_first ev_rows ev_page st0,
      selectedArtworks (onPageChange get ev_first ev_rows ev_page st0)
      = selectedArtworks st0.
Proof.
  intros Hpage Hsame. split.
  - rewrite onSelectionChange_lookup by done.
    by rewrite (bool_decide_eq_false_2 (k ∈ id <$> artworks st)).
  - intros. unfold onPageChange. by rewrite fetchArtworks_selectedArtworks.
Qed.

Lemma onSelectionChange_other_pages_witness :
  let value := [sampleArtwork 1; sampleArtwork 20] in
  selectedArtworks (onSelectionChange value stIdle) !! 20
  = Some (sampleArtwork 20).
Proof.
  refine (proj1 (onSelectionChange_other_pages
                   [sampleArtwork 1; sampleArtwork 20] stIdle 20 _ _)).
  - compute_done.
  - refine (proj1 (Forall_forall _ _) _). compute_done.
Defined.

(** C6: unchecking one record [x] of the visible page, reported by an event
    whose records are previously selected ones, none of them [x], and among
    them every other selected record of the visible page, removes the entry
    of [x] from the selection and changes nothing else. *)
Theorem onSelectionChange_uncheck value st x :
  x ∈ id <$> artworks st →
  (∀ a, a ∈ value → id a ≠ x) →
  (∀ a, a ∈ value → selectedArtworks st !! id a = Some a) →
  (∀ b, b ∈ artworks st → is_Some (selectedArtworks st !! id b) → id b ≠ x →
        is_Some (findById (id b) value)) →
  selectedArtworks (onSelectionChange value st) = delete x (selectedArtworks st).
Proof.
  intros Hx Hnot Hstored Hrest. apply map_eq. intros k.
  rewrite onSelectionChange_lookup.
  2:{ intros a Ha <-. by apply Hstored. }
  destruct (decide (k = x)) as [->|Hne].
  - rewrite lookup_delete_eq, (bool_decide_eq_true_2 (x ∈ id <$> artworks st)) by done.
    rewrite (bool_decide_eq_false_2 (is_Some (findById x value))); [done |].
    rewrite findById_Some. intros (a & Ha & Hid). by apply (Hnot a).
  - rewrite lookup_delete_ne by done.
    destruct (_ && _) eqn:Hdel; [| done].
    apply andb_true_iff in Hdel as [Hon Hmiss].
    apply bool_decide_eq_true_1, list_elem_of_fmap in Hon as (b & -> & Hb).
    apply negb_true_iff, bool_decide_eq_false_1 in Hmiss.
    symmetry. apply eq_None_not_Some. intros Hsel. by apply Hmiss, Hrest.
Qed.

Lemma onSelectionChange_uncheck_witness :
  let value := [sampleArtwork 1; sampleArtwork 20] in
  dom (selectedArtworks stIdle) = ({[1; 3; 20]} : gset Z)
  ∧ selectedArtworks (onSelectionChange value stIdle)
    = delete 3 (selectedArtworks stIdle).
Proof.
  split; [compute_done |].
  apply (onSelectionChange_uncheck [sampleArtwork 1; sampleArtwork 20] stIdle 3).
  - compute_done.
  - refine (proj1 (Forall_forall _ _) _). compute_done.
  - refine (proj1 (Forall_forall _ _) _). compute_done.
  - refine (proj1 (Forall_forall _ _) _). compute_done.
Defined.

(** C5: in the shrink branch, for a target between 0 and the selection
    size, exactly [target] entries remain; each is an entry of the prior
    selection, and every identifier kept is numerically below every
    identifier dropped. *)
Theorem trim_keeps_lowest get st target :
  numberInput st = Some target →
  0 ≤ target ≤ Z.of_nat (size (selectedArtworks st)) →
  let sel := selectedArtworks st in
  let sel' := selectedArtworks (handleCustomSelection get st) in
  Z.of_nat (size sel') = target
  ∧ sel' ⊆ sel
  ∧ (∀ i j, is_Some (sel' !! i) → is_Some (sel !! j) → sel' !! j = None → i < j).
Proof.
  intros Hn [H0 Hle] sel sel'. subst sel'.
  rewrite (handleCustomSelection_trim get st target Hn Hle). simpl.
  rewrite slice0_nonneg by done. fold sel.
  set (sorted := sortNumeric (Object_keys sel)).
  set (keys := take (Z.to_nat target) sorted).
  assert (Hperm : sorted ≡ₚ Object_keys sel) by apply sortNumeric_Permutation.
  assert (Hnd : NoDup sorted).
  { rewrite Hperm. apply NoDup_Object_keys. }
  assert (Hsplit : sorted = keys ++ drop (Z.to_nat target) sorted).
  { symmetry. apply take_drop. }
  assert (Hsel : ∀ k, k ∈ sorted ↔ is_Some (sel !! k)).
  { intros k. by rewrite Hperm, elem_of_Object_keys. }
  assert (Hlook : ∀ k, foldl (copyEntry sel) ∅ keys !! k
                       = if bool_decide (k ∈ keys) then sel !! k else None).
  { intros k. rewrite lookup_foldl_copyEntry, lookup_empty.
    by destruct (if bool_decide (k ∈ keys) then sel !! k else None). }
  assert (Hkeys : ∀ k, is_Some (foldl (copyEntry sel) ∅ keys !! k) ↔ k ∈ keys).
  { intros k. rewrite Hlook. case_bool_decide as Hin.
    - split; [done | intros _]. apply Hsel. rewrite Hsplit, elem_of_app. by left.
    - split; [by intros [? [=]] | done]. }
  split_and!.
  - rewrite <- (size_dom (D:=gset Z) (foldl (copyEntry sel) ∅ keys)).
    assert (Hdom : dom (foldl (copyEntry sel) ∅ keys) = list_to_set (C:=gset Z) keys).
    { apply set_eq. intros k. by rewrite elem_of_dom, elem_of_list_to_set. }
    rewrite Hdom, size_list_to_set.
    + unfold keys. rewrite length_take.
      assert (length sorted = size sel).
      { by rewrite Hperm, Object_keys_length. }
      unfold sel in *. lia.
    + rewrite Hsplit in Hnd. by apply NoDup_app in Hnd as [? _].
  - apply map_subseteq_spec. intros k a. rewrite Hlook.
    by case_bool_decide.
  - intros i j Hi Hj Hnone.
    apply Hkeys in Hi.
    assert (Hjd : j ∈ drop (Z.to_nat target) sorted).
    { apply Hsel in Hj. rewrite Hsplit, elem_of_app in Hj.
      destruct Hj as [Hj|Hj]; [| done].
      apply Hkeys in Hj. rewrite Hnone in Hj. by destruct Hj. }
    assert (Hij : i ≤ j).
    { apply (StronglySorted_app_1_elem_of Z.le keys (drop (Z.to_nat target) sorted));
        [| done | done].
      rewrite <- Hsplit. apply sortNumeric_sorted. }
    assert (i ≠ j); [| lia].
    intros ->. rewrite Hsplit in Hnd.
    apply NoDup_app in Hnd as (_ & Hdisj & _). by apply (Hdisj j).
Qed.

Lemma trim_keeps_lowest_witness :
  let st := setNumberInput (Some 2) st3 in
  let sel' := selectedArtworks (handleCustomSelection (catalogue 100) st) in
  dom (selectedArtworks st) = ({[101; 103; 113]} : gset Z)
  ∧ Z.of_nat (size sel') = 2
  ∧ sel' ⊆ selectedArtworks st
  ∧ (∀ i j, is_Some (sel' !! i) → is_Some (selectedArtworks st !! j) →
            sel' !! j = None → i < j).
Proof.
  split; [compute_done |].
  apply (trim_keeps_lowest (catalogue 100) (setNumberInput (Some 2) st3) 2);
    [reflexivity | vm_compute; split; discriminate].
Defined.

(** C2, as stated, fails: with the first page displayed and a target above
    the selection size, the first request of the expansion is for page 1,
    the displayed page, not for the page after it. *)
Lemma expansion_first_page_counterexample :
  ¬ (∀ get st target,
       numberInput st = Some target →
       Z.of_nat (size (selectedArtworks st)) < target →
       0 < rows st →
       head (issued st (handleCustomSelection get st))
       = Some (displayedPage st + 1, rows st)).
Proof.
  intros H.
  specialize (H (catalogue 1000) st3 20 eq_refl).
  vm_compute in H. discriminate H; reflexivity.
Qed.

(** C2, amended: in the expansion branch the first page requested is the
    displayed page itself (first / rows + 1); the requests are for
    consecutive pages in increasing order, at least one and at most
    ceil(needed / rows) of them, each with limit [rows]; and the collected
    records are the first [needed] records of those pages' data, in request
    order. *)
Theorem expansion_page_order get st target :
  numberInput st = Some target →
  Z.of_nat (size (selectedArtworks st)) < target →
  0 < rows st →
  let needed := target - Z.of_nat (size (selectedArtworks st)) in
  let st' := handleCustomSelection get st in
  ∃ k : nat,
    1 ≤ Z.of_nat k ≤ ceilDiv needed (rows st)
    ∧ issued st st' = (λ p, (p, rows st)) <$> seqZ (displayedPage st) (Z.of_nat k)
    ∧ collected get target st
      = take (Z.to_nat needed)
          (concat (pageRecords get (rows st) <$> seqZ (displayedPage st) (Z.of_nat k))).
Proof.
  intros Hn Hlt Hrows needed st'.
  destruct (expansion_summary get st target Hn Hlt)
    as (_ & k & Hk & Hk0 & Hreq & Hres & _).
  fold needed in Hk, Hk0, Hres.
  assert (0 < ceilDiv needed (rows st)) by (apply ceilDiv_pos; lia).
  exists k. split_and!; [| lia | done | done].
  specialize (Hk0 ltac:(done)). lia.
Qed.

Lemma expansion_page_order_witness :
  let st' := handleCustomSelection (catalogue 1000) st3 in
  ∃ k : nat,
    1 ≤ Z.of_nat k ≤ ceilDiv (20 - Z.of_nat (size (selectedArtworks st3))) 12
    ∧ issued st3 st' = (λ p, (p, 12)) <$> seqZ (displayedPage st3) (Z.of_nat k)
    ∧ collected (catalogue 1000) 20 st3
      = take (Z.to_nat (20 - Z.of_nat (size (selectedArtworks st3))))
          (concat (pageRecords (catalogue 1000) 12
                     <$> seqZ (displayedPage st3) (Z.of_nat k))).
Proof.
  apply (expansion_page_order (catalogue 1000) st3 20);
    [reflexivity | vm_compute; reflexivity | reflexivity].
Defined.

(** C7: if, in the expansion branch, a page [q] that is requested is
    rejected, then [q] is the last page requested (the requests are the
    consecutive pages from the displayed page up to [q]); the error toast
    is shown, followed by the toast that reports the new size; and the
    selection is the prior one with all the records of the pages fetched
    before [q] inserted under the free keys, so each of their identifiers
    is selected. *)
Theorem expansion_partial_failure get st target q :
  numberInput st = Some target →
  Z.of_nat (size (selectedArtworks st)) < target →
  let st' := handleCustomSelection get st in
  let p0 := displayedPage st in
  (q, rows st) ∈ issued st st' →
  get q (rows st) = Rejected →
  last (issued st st') = Some (q, rows st)
  ∧ issued st st' = (λ p, (p, rows st)) <$> seqZ p0 (q - p0 + 1)
  ∧ shown st st' = [toastAdditionalError;
                    toastExpanded (Z.of_nat (size (selectedArtworks st')))]
  ∧ selectedArtworks st'
    = foldl addIfAbsent (selectedArtworks st)
        (concat (pageRecords get (rows st) <$> seqZ p0 (q - p0)))
  ∧ (∀ p a, p0 ≤ p < q → a ∈ pageRecords get (rows st) p →
            is_Some (selectedArtworks st' !! id a)).
Proof.
  intros Hn Hlt st' p0 Hq Hrej.
  destruct (expansion_summary get st target Hn Hlt)
    as (Hsel & k & _ & _ & Hreq & Hres & Hend).
  fold st' p0 in Hsel, Hreq, Hres, Hend.
  assert (Hqk : p0 ≤ q < p0 + Z.of_nat k).
  { rewrite Hreq in Hq. apply list_elem_of_fmap in Hq as (p & [= ->] & Hp).
    apply elem_of_seqZ in Hp. lia. }
  destruct Hend as [(_ & Hok & _) | (Ht & Hk0 & Hlast & Hok & Hraw)].
  { by destruct (Hok q Hqk). }
  assert (Hqlast : q = p0 + Z.of_nat k - 1).
  { destruct (decide (q = p0 + Z.of_nat k - 1)) as [|Hne]; [done |].
    destruct (Hok q); [lia | done]. }
  replace (Z.of_nat k) with (q - p0 + 1) in Hreq by lia.
  replace (Z.of_nat k - 1) with (q - p0) in Hraw by lia.
  assert (Hselq : selectedArtworks st'
                  = foldl addIfAbsent (selectedArtworks st)
                      (concat (pageRecords get (rows st) <$> seqZ p0 (q - p0)))).
  { by rewrite Hsel, Hraw. }
  split_and!; [| done | done | done |].
  - rewrite Hreq.
    replace (q - p0 + 1) with (Z.of_nat (S (Z.to_nat (q - p0)))) by lia.
    rewrite seqZ_S, fmap_app. cbn [fmap list_fmap].
    rewrite last_snoc. do 2 f_equal. lia.
  - intros p a Hp Ha. rewrite Hselq.
    apply elem_of_dom. rewrite dom_foldl_addIfAbsent, elem_of_union. right.
    apply elem_of_list_to_set, list_elem_of_fmap. exists a. split; [done |].
    apply elem_of_concat. exists (pageRecords get (rows st) p). split; [| done].
    apply list_elem_of_fmap. exists p. split; [done |].
    apply elem_of_seqZ. lia.
Qed.

Lemma expansion_partial_failure_witness :
  let get := failingAt 2 (catalogue 1000) in
  let st' := handleCustomSelection get st3 in
  let p0 := displayedPage st3 in
  size (selectedArtworks st') = 15%nat
  ∧ last (issued st3 st') = Some (2, rows st3)
  ∧ issued st3 st' = (λ p, (p, rows st3)) <$> seqZ p0 (2 - p0 + 1)
  ∧ shown st3 st' = [toastAdditionalError;
                     toastExpanded (Z.of_nat (size (selectedArtworks st')))]
  ∧ selectedArtworks st'
    = foldl addIfAbsent (selectedArtworks st3)
        (concat (pageRecords get (rows st3) <$> seqZ p0 (2 - p0)))
  ∧ (∀ p a, p0 ≤ p < 2 → a ∈ pageRecords get (rows st3) p →
            is_Some (selectedArtworks st' !! id a)).
Proof.
  split; [vm_compute; reflexivity |].
  apply (expansion_partial_failure (failingAt 2 (catalogue 1000)) st3 20 2);
    [reflexivity | vm_compute; reflexivity | compute_done | reflexivity].
Defined.

(** C3: the code at the failing input. Record 1 of the displayed first page
    is selected and 2 is submitted, so one more record is needed (line 95).
    The displayed page is requested again and its first record, record 1,
    is the one record collected (line 107), although its identifier is
    already selected; the guard of line 119 then drops it. No fetch fails,
    no other page is requested, the selection is what it was, and the toast
    reports a selection expanded to 1 item. The claim asks for one new
    record. *)
Theorem expansion_overlap_shortfall :
  let st' := handleCustomSelection (catalogue 100) stStale in
  numberInput stStale = Some 2
  ∧ size (selectedArtworks stStale) = 1%nat
  ∧ collected (catalogue 100) 2 stStale = [sampleArtwork 1]
  ∧ selectedArtworks stStale !! id (sampleArtwork 1) = Some staleArtwork
  ∧ issued stStale st' = [(1, 12)]
  ∧ selectedArtworks st' = selectedArtworks stStale
  ∧ shown stStale st' = [toastExpanded 1].
Proof. vm_compute. done. Qed.

(** Neither reading of the skipping holds for every input: a collected
    record may carry a selected identifier, and a run without a failed
    fetch may end below the target. *)
Lemma expansion_quota_counterexample :
  ¬ (∀ get st target a,
       numberInput st = Some target →
       Z.of_nat (size (selectedArtworks st)) < target →
       a ∈ collected get target st →
       selectedArtworks st !! id a = None)
  ∧ ¬ (∀ get st target,
         numberInput st = Some target →
         Z.of_nat (size (selectedArtworks st)) < target →
         toastAdditionalError ∉ shown st (handleCustomSelection get st) →
         Z.of_nat (size (selectedArtworks (handleCustomSelection get st))) = target).
Proof.
  split; intros H.
  - specialize (H (catalogue 100) stStale 2 (sampleArtwork 1) eq_refl).
    discriminate H; [vm_compute; reflexivity | compute_done].
  - specialize (H (catalogue 100) stStale 2 eq_refl).
    discriminate H; [vm_compute; reflexivity | compute_done].
Qed.

(** X14: what the expansion branch does with the quota. The collected
    records are the first [needed] records of the fetched pages, selected
    or not. Collecting ends when [needed] records are in hand, when a fetch
    fails, or when ceil(needed / rows) pages have been requested. A
    collected record is stored only under an identifier that was not
    selected: every entry of the resulting selection is an entry of the
    prior one, or such a record. *)
Theorem expansion_quota get st target :
  numberInput st = Some target →
  Z.of_nat (size (selectedArtworks st)) < target →
  let sel := selectedArtworks st in
  let needed := target - Z.of_nat (size sel) in
  let st' := handleCustomSelection get st in
  let coll := collected get target st in
  let fetched := concat (pageRecords get (rows st) <$> (fst <$> issued st st')) in
  coll = take (Z.to_nat needed) fetched
  ∧ (Z.of_nat (length coll) = needed
     ∨ toastAdditionalError ∈ shown st st'
     ∨ Z.of_nat (length (issued st st')) = Z.max 0 (ceilDiv needed (rows st)))
  ∧ selectedArtworks st' = foldl addIfAbsent sel coll
  ∧ (∀ k a, selectedArtworks st' !! k = Some a →
            sel !! k = Some a ∨ (sel !! k = None ∧ a ∈ coll ∧ id a = k)).
Proof.
  intros Hn Hlt sel needed st' coll fetched.
  destruct (expansion_summary get st target Hn Hlt)
    as (Hsel & k & Hk & _ & Hreq & Hres & Hend).
  fold sel needed st' coll in Hsel, Hk, Hreq, Hres, Hend.
  assert (Hpages : fst <$> issued st st' = seqZ (displayedPage st) (Z.of_nat k)).
  { rewrite Hreq, <- list_fmap_compose. apply list_fmap_id. }
  split_and!.
  - unfold fetched. by rewrite Hpages.
  - destruct Hend as [(_ & _ & [Hall|Hfull]) | (Ht & _)].
    + right. right. rewrite Hreq, length_fmap, length_seqZ. lia.
    + by left.
    + right. left. rewrite Ht. left.
  - done.
  - intros j a. rewrite Hsel, lookup_foldl_addIfAbsent.
    destruct (sel !! j) as [b|]; [by left |].
    intros [Hin Hid]%findById_elem. by right.
Qed.

Lemma expansion_quota_witness :
  let sel := selectedArtworks stStale in
  let st' := handleCustomSelection (catalogue 100) stStale in
  let coll := collected (catalogue 100) 2 stStale in
  let fetched := concat (pageRecords (catalogue 100) (rows stStale)
                           <$> (fst <$> issued stStale st')) in
  coll = [sampleArtwork 1]
  ∧ coll = take (Z.to_nat (2 - Z.of_nat (size sel))) fetched
  ∧ (Z.of_nat (length coll) = 2 - Z.of_nat (size sel)
     ∨ toastAdditionalError ∈ shown stStale st'
     ∨ Z.of_nat (length (issued stStale st'))
       = Z.max 0 (ceilDiv (2 - Z.of_nat (size sel)) (rows stStale)))
  ∧ selectedArtworks st' = foldl addIfAbsent sel coll
  ∧ (∀ k a, selectedArtworks st' !! k = Some a →
            sel !! k = Some a ∨ (sel !! k = None ∧ a ∈ coll ∧ id a = k)).
Proof.
  split; [vm_compute; reflexivity |].
  apply (expansion_quota (catalogue 100) stStale 2);
    [reflexivity | vm_compute; reflexivity].
Defined.




(** * Further properties of the handlers *)

(** ** Helper lemmas: reconciliation in closed form *)

Lemma findById_app k l1 l2 :
  findById k (l1 ++ l2) =
    match findById k l1 with
    | Some a => Some a
    | None => findById k l2
    end.
Proof.
  unfold findById. induction l1 as [|a l1 IH]; simpl; [done |].
  by destruct (id a =? k).
Qed.

Lemma findById_reverse_None k l :
  findById k (reverse l) = None ↔ findById k l = None.
Proof.
  rewrite !eq_None_not_Some, !findById_Some.
  by setoid_rewrite elem_of_reverse.
Qed.

(** Inserting the checked records in order: the last record filed under a
    key is the one stored. *)
Lemma lookup_foldl_insert_last (value : list Artwork) :
  ∀ (m : gmap Z Artwork) k,
  foldl (λ (acc : gmap Z Artwork) a, <[id a := a]> acc) m value !! k =
    match findById k (reverse value) with
    | Some a => Some a
    | None => m !! k
    end.
Proof.
  induction value as [|a value IH]; intros m k; simpl; [done |].
  rewrite IH, reverse_cons, findById_app.
  destruct (findById k (reverse value)); [done |].
  unfold findById. simpl.
  destruct (Z.eqb_spec (id a) k) as [->|Hne].
  - by rewrite lookup_insert_eq.
  - by rewrite lookup_insert_ne.
Qed.

Lemma onSelectionChange_closed_form value st k :
  selectedArtworks (onSelectionChange value st) !! k =
    match findById k (reverse value) with
    | Some a => Some a
    | None => if bool_decide (k ∈ id <$> artworks st) then None
              else selectedArtworks st !! k
    end.
Proof.
  unfold onSelectionChange. simpl.
  rewrite lookup_foldl_insert_last.
  destruct (findById k (reverse value)) as [a|] eqn:Hlast; [done |].
  apply (proj1 (findById_reverse_None _ _)) in Hlast.
  rewrite lookup_foldl_delete, Hlast.
  assert (Hnot : bool_decide (is_Some (@None Artwork)) = false).
  { apply bool_decide_eq_false_2. by intros [? [=]]. }
  rewrite Hnot. simpl. rewrite andb_true_r.
  assert (Hpage : bool_decide (k ∈ (list_to_set (id <$> artworks st) : gset Z))
                  = bool_decide (k ∈ id <$> artworks st)).
  { apply bool_decide_ext, elem_of_list_to_set. }
  rewrite Hpage.
  destruct (bool_decide (k ∈ id <$> artworks st)); [| by rewrite andb_false_r].
  destruct (decide (k ∈ Object_keys (selectedArtworks st))) as [Hin|Hin].
  - by rewrite (bool_decide_eq_true_2 _ Hin).
  - rewrite (bool_decide_eq_false_2 _ Hin). simpl.
    rewrite elem_of_Object_keys in Hin. by apply eq_None_not_Some.
Qed.

Lemma NoDup_fmap_eq {A B} (f : A → B) (l : list A) a b :
  NoDup (f <$> l) → a ∈ l → b ∈ l → f a = f b → a = b.
Proof.
  induction l as [|x l IH]; intros Hnd Ha Hb Hf; [by apply elem_of_nil in Ha |].
  simpl in Hnd. apply NoDup_cons in Hnd as [Hx Hnd].
  apply elem_of_cons in Ha as [->|Ha]; apply elem_of_cons in Hb as [->|Hb].
  - done.
  - destruct Hx. rewrite Hf. apply list_elem_of_fmap. by exists b.
  - destruct Hx. rewrite <- Hf. apply list_elem_of_fmap. by exists a.
  - by apply IH.
Qed.

(** ** Reconciliation *)

(** X1: after a selection-change event every record of the event is
    selected: under the identifier of a checked record the selection holds
    a record of the event with that identifier, and the checked record
    itself when the identifiers of the event are pairwise distinct. *)
Theorem onSelectionChange_checked value st a :
  a ∈ value →
  let sel' := selectedArtworks (onSelectionChange value st) in
  (∃ b, b ∈ value ∧ id b = id a ∧ sel' !! id a = Some b)
  ∧ (NoDup (id <$> value) → sel' !! id a = Some a).
Proof.
  intros Ha sel'. subst sel'.
  rewrite onSelectionChange_closed_form.
  destruct (findById (id a) (reverse value)) as [b|] eqn:Hlast.
  - apply findById_elem in Hlast as [Hb Hid]. rewrite elem_of_reverse in Hb.
    split; [by exists b |].
    intros Hnd. f_equal. by apply (NoDup_fmap_eq id value).
  - apply (proj1 (findById_reverse_None _ _)) in Hlast.
    assert (Hsome : is_Some (findById (id a) value)).
    { apply findById_Some. by exists a. }
    rewrite Hlast in Hsome. by destruct Hsome.
Qed.

Lemma onSelectionChange_checked_witness :
  let value := [sampleArtwork 1; sampleArtwork 5] in
  let sel' := selectedArtworks (onSelectionChange value stIdle) in
  (∃ b, b ∈ value ∧ id b = 5 ∧ sel' !! 5 = Some b)
  ∧ (NoDup (id <$> value) → sel' !! 5 = Some (sampleArtwork 5)).
Proof.
  apply (onSelectionChange_checked
           [sampleArtwork 1; sampleArtwork 5] stIdle (sampleArtwork 5)).
  compute_done.
Defined.

(** X2: the identifiers selected after a selection-change event are those
    selected before that are not on the visible page, together with the
    identifiers of the event. *)
Theorem onSelectionChange_dom value st :
  dom (selectedArtworks (onSelectionChange value st))
  = (dom (selectedArtworks st) ∖ list_to_set (id <$> artworks st))
    ∪ list_to_set (id <$> value).
Proof.
  apply set_eq. intros k.
  rewrite elem_of_union, elem_of_difference, !elem_of_dom, !elem_of_list_to_set.
  rewrite onSelectionChange_closed_form.
  destruct (findById k (reverse value)) as [a|] eqn:Hlast.
  - apply findById_elem in Hlast as [Ha Hid]. rewrite elem_of_reverse in Ha.
    split; [intros _; right | by eexists].
    apply list_elem_of_fmap. by exists a.
  - apply (proj1 (findById_reverse_None _ _)) in Hlast.
    assert (Hnv : k ∉ id <$> value).
    { intros (a & -> & Ha)%list_elem_of_fmap.
      assert (Hsome : is_Some (findById (id a) value)).
      { apply findById_Some. by exists a. }
      rewrite Hlast in Hsome. by destruct Hsome. }
    case_bool_decide as Hpage.
    + split; [by intros [? [=]] | intros [[_ ?] | ?]; done].
    + split; [by left | intros [[? _] | ?]; done].
Qed.

(** X3: handling the same selection-change event twice gives the selection
    that handling it once gives. *)
Theorem onSelectionChange_idempotent value st :
  selectedArtworks (onSelectionChange value (onSelectionChange value st))
  = selectedArtworks (onSelectionChange value st).
Proof.
  apply map_eq. intros k.
  rewrite (onSelectionChange_closed_form value (onSelectionChange value st)).
  change (artworks (onSelectionChange value st)) with (artworks st).
  rewrite (onSelectionChange_closed_form value st).
  destruct (findById k (reverse value)); [done |].
  by case_bool_decide.
Qed.

(** X4: an event with no checked record (every row of the visible page
    unchecked) removes exactly the entries whose identifier is on the
    visible page. *)
Theorem onSelectionChange_nothing_checked st :
  selectedArtworks (onSelectionChange [] st)
  = filter (λ kv, kv.1 ∉ id <$> artworks st) (selectedArtworks st).
Proof.
  apply map_eq. intros k.
  rewrite onSelectionChange_closed_form. simpl.
  case_bool_decide as Hpage.
  - symmetry. apply map_lookup_filter_None. right. intros a _. simpl. tauto.
  - destruct (selectedArtworks st !! k) as [a|] eqn:Hk.
    + symmetry. by apply map_lookup_filter_Some.
    + symmetry. apply map_lookup_filter_None. by left.
Qed.

(** ** Page navigation *)

(** X5: a page change stores the event's [first] and [rows] whatever the
    answer, and requests page [event.page + 1] with the page size of the
    render that handles the event, not with [event.rows]. When the request
    is rejected the page array and the total stay as they were and the
    error toast is shown; when it resolves with a total, both are replaced
    and no toast is shown. *)
Theorem onPageChange_window get ev_first ev_rows ev_page st :
  let st' := onPageChange get ev_first ev_rows ev_page st in
  first st' = ev_first ∧ rows st' = ev_rows
  ∧ issued st st' = [(ev_page + 1, rows st)]
  ∧ (get (ev_page + 1) (rows st) = Rejected →
     artworks st' = artworks st ∧ totalRecords st' = totalRecords st
     ∧ shown st st' = [toastFetchError])
  ∧ (∀ response total,
       get (ev_page + 1) (rows st) = Resolved response →
       pagination response = Some total →
       artworks st' = data response ∧ totalRecords st' = total
       ∧ shown st st' = []).
Proof.
  unfold onPageChange, fetchArtworks. simpl.
  destruct (get (ev_page + 1) (rows st)) as [|b] eqn:Hget.
  - split_and!; [done | done | by apply issued_app | | done].
    intros _. split_and!; [done | done | by apply shown_app].
  - destruct (pagination b) as [t|] eqn:Hp.
    + split_and!; [done | done | by apply issued_app | done |].
      intros response total [= <-]. rewrite Hp. intros [= <-].
      split_and!; [done | done |]. apply shown_app. simpl. by rewrite app_nil_r.
    + split_and!; [done | done | by apply issued_app | done |].
      intros response total [= <-]. by rewrite Hp.
Qed.

(** ** Bulk selection: what a submit leaves alone *)

(** X6: a submit never writes to the page array, the total, the page window
    or the numeric input (the entered number stays in the field), and a
    submit with a number entered always ends with the panel closed. *)
Theorem handleCustomSelection_frame get st :
  let st' := handleCustomSelection get st in
  artworks st' = artworks st ∧ totalRecords st' = totalRecords st
  ∧ first st' = first st ∧ rows st' = rows st
  ∧ numberInput st' = numberInput st
  ∧ (numberInput st ≠ None → panelVisible st' = false).
Proof.
  unfold handleCustomSelection.
  destruct (numberInput st) as [n|] eqn:Hn; [| by rewrite Hn].
  destruct (n <=? _); [by rewrite <- Hn |].
  destruct (0 <? _); [| by rewrite <- Hn].
  pose proof (fetchLoop_frame get
                (n - Z.of_nat (length (Object_keys (selectedArtworks st))))
                (Z.to_nat (ceilDiv (n - Z.of_nat (length (Object_keys (selectedArtworks st))))
                                   (rows st))) 0 [] st) as Hframe.
  destruct (fetchLoop _ _ _ _ _ _) as [coll st1]. simpl in *.
  destruct Hframe as (? & ? & ? & ? & _ & ? & _).
  split_and!; congruence.
Qed.

(** ** Helper lemmas: trimming in closed form *)

Lemma slice0_keptCount {A} (e : Z) (arr : list A) :
  slice0 e arr = take (keptCount e (length arr)) arr.
Proof.
  unfold slice0, keptCount. destruct (e <? 0); [done |].
  destruct (Nat.min_spec (Z.to_nat e) (length arr)) as [[_ ->] | [Hle ->]]; [done |].
  by rewrite !take_ge by lia.
Qed.

Lemma keptCount_le e len : (keptCount e len ≤ len)%nat.
Proof. unfold keptCount. destruct (Z.ltb_spec e 0); lia. Qed.

Lemma sortedKeys_elem (sel : gmap Z Artwork) k :
  k ∈ sortNumeric (Object_keys sel) ↔ is_Some (sel !! k).
Proof. by rewrite sortNumeric_Permutation, elem_of_Object_keys. Qed.

Lemma sortedKeys_NoDup (sel : gmap Z Artwork) :
  NoDup (sortNumeric (Object_keys sel)).
Proof. rewrite sortNumeric_Permutation. apply NoDup_Object_keys. Qed.

Lemma sortedKeys_length (sel : gmap Z Artwork) :
  length (sortNumeric (Object_keys sel)) = size sel.
Proof. by rewrite sortNumeric_Permutation, Object_keys_length. Qed.

Lemma take_subseteq_elem {A} (n : nat) (l : list A) x : x ∈ take n l → x ∈ l.
Proof. apply subseteq_take. Qed.

Lemma NoDup_take_prefix {A} (n : nat) (l : list A) : NoDup l → NoDup (take n l).
Proof.
  intros Hnd. rewrite <- (take_drop n l) in Hnd.
  by apply NoDup_app in Hnd as [? _].
Qed.

(** The selection the shrink branch stores. *)
Lemma trim_closed_form get st n :
  numberInput st = Some n →
  n ≤ Z.of_nat (size (selectedArtworks st)) →
  let sel := selectedArtworks st in
  let kept := take (keptCount n (size sel)) (sortNumeric (Object_keys sel)) in
  ∀ k, selectedArtworks (handleCustomSelection get st) !! k
       = if bool_decide (k ∈ kept) then sel !! k else None.
Proof.
  intros Hn Hle sel kept k. subst kept.
  rewrite (handleCustomSelection_trim get st n Hn Hle). simpl. fold sel.
  rewrite slice0_keptCount, sortedKeys_length.
  rewrite lookup_foldl_copyEntry, lookup_empty.
  by destruct (if bool_decide _ then sel !! k else None).
Qed.

Lemma trim_dom get st n :
  numberInput st = Some n →
  n ≤ Z.of_nat (size (selectedArtworks st)) →
  let sel := selectedArtworks st in
  dom (selectedArtworks (handleCustomSelection get st))
  = list_to_set (C:=gset Z)
      (take (keptCount n (size sel)) (sortNumeric (Object_keys sel))).
Proof.
  intros Hn Hle sel. apply set_eq. intros k.
  rewrite elem_of_dom, elem_of_list_to_set, (trim_closed_form get st n Hn Hle).
  fold sel. case_bool_decide as Hin.
  - split; [done | intros _]. apply take_subseteq_elem in Hin.
    by rewrite sortedKeys_elem in Hin.
  - split; [by intros [? [=]] | done].
Qed.

Lemma trim_size get st n :
  numberInput st = Some n →
  n ≤ Z.of_nat (size (selectedArtworks st)) →
  size (selectedArtworks (handleCustomSelection get st))
  = keptCount n (size (selectedArtworks st)).
Proof.
  intros Hn Hle.
  rewrite <- (size_dom (D:=gset Z) (selectedArtworks (handleCustomSelection get st))).
  rewrite (trim_dom get st n Hn Hle), size_list_to_set.
  - rewrite length_take, sortedKeys_length.
    pose proof (keptCount_le n (size (selectedArtworks st))). lia.
  - apply NoDup_take_prefix, sortedKeys_NoDup.
Qed.

(** The sorted keys of a selection that holds a prefix of the sorted keys
    of another are that prefix. *)
Lemma sortedKeys_of_prefix (sel sel1 : gmap Z Artwork) (c : nat) :
  dom sel1 = list_to_set (C:=gset Z) (take c (sortNumeric (Object_keys sel))) →
  sortNumeric (Object_keys sel1) = take c (sortNumeric (Object_keys sel)).
Proof.
  intros Hdom.
  apply (StronglySorted_unique Z.le).
  - apply sortNumeric_sorted.
  - pose proof (sortNumeric_sorted (Object_keys sel)) as Hs.
    rewrite <- (take_drop c (sortNumeric (Object_keys sel))) in Hs.
    by apply StronglySorted_app_1_l in Hs.
  - rewrite sortNumeric_Permutation. apply NoDup_Permutation.
    + apply NoDup_Object_keys.
    + apply NoDup_take_prefix, sortedKeys_NoDup.
    + intros k. unfold Object_keys.
      by rewrite elem_of_elements, Hdom, elem_of_list_to_set.
Qed.

Lemma sorted_prefix_lowest (keys : list Z) (c : nat) i j :
  StronglySorted Z.le keys → NoDup keys →
  i ∈ take c keys → j ∈ keys → j ∉ take c keys → i < j.
Proof.
  intros Hs Hnd Hi Hj Hnj.
  rewrite <- (take_drop c keys) in Hs, Hnd, Hj.
  apply elem_of_app in Hj as [Hj|Hj]; [done |].
  assert (i ≤ j) by (by apply (StronglySorted_app_1_elem_of Z.le _ _ _ _ Hs)).
  assert (i ≠ j); [| lia].
  intros ->. apply NoDup_app in Hnd as (_ & Hdisj & _). by apply (Hdisj j).
Qed.

(** ** Bulk selection: the shrink branch at its bounds *)

(** X7: submitting the current selection size leaves the selection as it
    is; no request is made, the toast that announces the trimming is shown
    all the same, and the panel is closed. *)
Theorem trim_to_current_size get st n :
  numberInput st = Some n →
  n = Z.of_nat (size (selectedArtworks st)) →
  let st' := handleCustomSelection get st in
  selectedArtworks st' = selectedArtworks st
  ∧ issued st st' = []
  ∧ shown st st' = [toastTrimmed n]
  ∧ panelVisible st' = false.
Proof.
  intros Hn Hsize st'.
  assert (Hle : n ≤ Z.of_nat (size (selectedArtworks st))) by lia.
  split_and!.
  - apply map_eq. intros k. subst st'.
    rewrite (trim_closed_form get st n Hn Hle).
    assert (Hall : keptCount n (size (selectedArtworks st)) = size (selectedArtworks st)).
    { unfold keptCount. destruct (Z.ltb_spec n 0); lia. }
    rewrite Hall, take_ge by (by rewrite sortedKeys_length).
    case_bool_decide as Hin; [done |].
    rewrite sortedKeys_elem in Hin. symmetry. by apply eq_None_not_Some.
  - subst st'. rewrite (handleCustomSelection_trim get st n Hn Hle).
    apply issued_app. simpl. by rewrite app_nil_r.
  - subst st'. rewrite (handleCustomSelection_trim get st n Hn Hle).
    by apply shown_app.
  - subst st'. by rewrite (handleCustomSelection_trim get st n Hn Hle).
Qed.

Lemma trim_to_current_size_witness :
  let st := handleNumberChange (Some 3) st3 in
  let st' := handleCustomSelection unreachable st in
  selectedArtworks st' = selectedArtworks st
  ∧ issued st st' = []
  ∧ shown st st' = [toastTrimmed 3]
  ∧ panelVisible st' = false.
Proof.
  apply (trim_to_current_size unreachable (handleNumberChange (Some 3) st3) 3);
    [reflexivity | vm_compute; reflexivity].
Defined.

(** X8: a negative number sent to the shrink branch counts from the end of
    the sorted keys: as many of the highest identifiers as its magnitude
    are dropped (all of them when the selection is smaller), and what
    remains are entries of the prior selection with the lowest
    identifiers. *)
Theorem trim_negative_target get st n :
  numberInput st = Some n →
  n < 0 →
  let sel := selectedArtworks st in
  let sel' := selectedArtworks (handleCustomSelection get st) in
  size sel' = Z.to_nat (Z.of_nat (size sel) + n)
  ∧ sel' ⊆ sel
  ∧ (∀ i j, is_Some (sel' !! i) → is_Some (sel !! j) → sel' !! j = None → i < j).
Proof.
  intros Hn Hneg sel sel'.
  assert (Hle : n ≤ Z.of_nat (size (selectedArtworks st))) by lia.
  pose proof (trim_closed_form get st n Hn Hle) as Hlook. simpl in Hlook.
  fold sel sel' in Hlook.
  split_and!.
  - subst sel'. rewrite (trim_size get st n Hn Hle). unfold keptCount.
    by destruct (Z.ltb_spec n 0); [| lia].
  - apply map_subseteq_spec. intros k a. rewrite Hlook. by case_bool_decide.
  - intros i j Hi Hj Hnone. rewrite Hlook in Hi, Hnone.
    destruct (decide (i ∈ take (keptCount n (size sel)) (sortNumeric (Object_keys sel))))
      as [Hin|Hin]; [| rewrite (bool_decide_eq_false_2 _ Hin) in Hi; by destruct Hi as [? [=]]].
    apply (sorted_prefix_lowest (sortNumeric (Object_keys sel))
             (keptCount n (size sel))); [| | done | |].
    + apply sortNumeric_sorted.
    + apply sortedKeys_NoDup.
    + by apply sortedKeys_elem.
    + intros Hjin. rewrite (bool_decide_eq_true_2 _ Hjin) in Hnone.
      rewrite Hnone in Hj. by destruct Hj as [? [=]].
Qed.

Lemma trim_negative_target_witness :
  let st := handleNumberChange (Some (-1)) st3 in
  let sel' := selectedArtworks (handleCustomSelection unreachable st) in
  dom sel' = ({[101; 103]} : gset Z)
  ∧ size sel' = Z.to_nat (Z.of_nat (size (selectedArtworks st)) + -1).
Proof.
  split; [compute_done |].
  apply (trim_negative_target unreachable (handleNumberChange (Some (-1)) st3) (-1));
    [reflexivity | reflexivity].
Defined.

(** X9: trimming to [n] and then to [m ≤ n] leaves the selection that
    trimming to [m] at once leaves. *)
Theorem trim_trim get get' st n m :
  numberInput st = Some n →
  0 ≤ m ≤ n →
  n ≤ Z.of_nat (size (selectedArtworks st)) →
  selectedArtworks
    (handleCustomSelection get'
       (handleNumberChange (Some m) (handleCustomSelection get st)))
  = selectedArtworks (handleCustomSelection get (handleNumberChange (Some m) st)).
Proof.
  intros Hn [Hm Hmn] Hle.
  set (sel := selectedArtworks st).
  set (st1 := handleCustomSelection get st).
  set (keys := sortNumeric (Object_keys sel)).
  assert (Hcount : ∀ e, 0 ≤ e ≤ Z.of_nat (size sel) → keptCount e (size sel) = Z.to_nat e).
  { intros e He. unfold keptCount. destruct (Z.ltb_spec e 0); lia. }
  assert (Hsize1 : size (selectedArtworks st1) = Z.to_nat n).
  { unfold st1. rewrite (trim_size get st n Hn Hle). apply Hcount. fold sel in Hle. lia. }
  assert (Hkeys1 : sortNumeric (Object_keys (selectedArtworks st1))
                   = take (Z.to_nat n) keys).
  { apply sortedKeys_of_prefix. unfold st1.
    rewrite (trim_dom get st n Hn Hle). fold sel keys.
    rewrite Hcount; [done | fold sel in Hle; lia]. }
  assert (Hlook1 : ∀ k, selectedArtworks st1 !! k
                        = if bool_decide (k ∈ take (Z.to_nat n) keys)
                          then sel !! k else None).
  { intros k. unfold st1. rewrite (trim_closed_form get st n Hn Hle).
    fold sel keys. rewrite Hcount; [done | fold sel in Hle; lia]. }
  apply map_eq. intros k.
  rewrite (trim_closed_form get' (handleNumberChange (Some m) st1) m);
    [| done | simpl; fold st1; lia].
  rewrite (trim_closed_form get (handleNumberChange (Some m) st) m);
    [| done | simpl; fold sel in Hle |- *; lia].
  simpl. fold st1 sel keys.
  rewrite Hkeys1, Hsize1, take_take.
  assert (Hc1 : keptCount m (Z.to_nat n) = Z.to_nat m).
  { unfold keptCount. destruct (Z.ltb_spec m 0); lia. }
  rewrite Hc1, Hcount by (fold sel in Hle; lia).
  replace (Z.to_nat m `min` Z.to_nat n)%nat with (Z.to_nat m) by lia.
  case_bool_decide as Hin; [| done].
  rewrite Hlook1, bool_decide_eq_true_2; [done |].
  apply elem_of_take in Hin as (i & Hi & Hlt).
  apply elem_of_take. exists i. split; [done | lia].
Qed.

Lemma trim_trim_witness :
  selectedArtworks
    (handleCustomSelection unreachable
       (handleNumberChange (Some 1)
          (handleCustomSelection unreachable (handleNumberChange (Some 2) st3))))
  = selectedArtworks
      (handleCustomSelection unreachable
         (handleNumberChange (Some 1) (handleNumberChange (Some 2) st3))).
Proof.
  apply (trim_trim unreachable unreachable (handleNumberChange (Some 2) st3) 2 1);
    [reflexivity | lia | vm_compute; discriminate].
Defined.

(** ** Bulk selection: the expansion branch *)

(** X10: in the expansion branch the panel is closed and the toast that
    reports the new selection size is always the last one shown, also
    after a failed fetch: either it is the only toast and no request was
    rejected, or it follows the error toast and the last request was the
    rejected one. *)
Theorem expansion_toasts get st target :
  numberInput st = Some target →
  Z.of_nat (size (selectedArtworks st)) < target →
  let st' := handleCustomSelection get st in
  let n := Z.of_nat (size (selectedArtworks st')) in
  panelVisible st' = false
  ∧ ((shown st st' = [toastExpanded n]
      ∧ ∀ q, (q, rows st) ∈ issued st st' → get q (rows st) ≠ Rejected)
     ∨ (shown st st' = [toastAdditionalError; toastExpanded n]
        ∧ ∃ q, last (issued st st') = Some (q, rows st)
               ∧ get q (rows st) = Rejected)).
Proof.
  intros Hn Hlt st' n.
  destruct (expansion_summary get st target Hn Hlt)
    as (_ & k & _ & _ & Hreq & _ & Hend).
  fold st' n in Hreq, Hend.
  split.
  { subst st'. by rewrite (handleCustomSelection_expand get st target Hn Hlt). }
  destruct Hend as [(Ht & Hok & _) | (Ht & Hk0 & Hrej & _ & _)].
  - left. split; [done |]. intros q Hq. apply Hok.
    rewrite Hreq in Hq. apply list_elem_of_fmap in Hq as (p & [= ->] & Hp).
    apply elem_of_seqZ in Hp. lia.
  - right. split; [done |].
    exists (displayedPage st + Z.of_nat k - 1). split; [| done].
    rewrite Hreq. destruct k as [|k]; [done |].
    rewrite seqZ_S, fmap_app. cbn [fmap list_fmap].
    rewrite last_snoc. do 2 f_equal. lia.
Qed.

Lemma expansion_toasts_witness :
  let st' := handleCustomSelection unreachable st3 in
  selectedArtworks st' = selectedArtworks st3
  ∧ toasts st' = [toastAdditionalError; toastExpanded 3]
  ∧ panelVisible st' = false
  ∧ ((shown st3 st' = [toastExpanded (Z.of_nat (size (selectedArtworks st')))]
      ∧ ∀ q, (q, rows st3) ∈ issued st3 st' → unreachable q (rows st3) ≠ Rejected)
     ∨ (shown st3 st' = [toastAdditionalError;
                         toastExpanded (Z.of_nat (size (selectedArtworks st')))]
        ∧ ∃ q, last (issued st3 st') = Some (q, rows st3)
               ∧ unreachable q (rows st3) = Rejected)).
Proof.
  split; [vm_compute; reflexivity |]. split; [vm_compute; reflexivity |].
  apply (expansion_toasts unreachable st3 20); [reflexivity | vm_compute; reflexivity].
Defined.

(** A page is requested only while the records in hand, with those of the
    pages requested before it, are fewer than [needed]. *)
Lemma fetchLoop_lean get needed remaining : ∀ i acc st,
  Z.of_nat (length acc) < needed →
  let r := fetchLoop get needed remaining i acc st in
  let p0 := first st / rows st + i + 1 in
  ∃ k : nat,
    requests r.2 = requests st ++ ((λ p, (p, rows st)) <$> seqZ p0 (Z.of_nat k))
    ∧ ∀ m : nat, (m < k)%nat →
        Z.of_nat (length acc)
        + Z.of_nat (length (concat (pageRecords get (rows st) <$> seqZ p0 (Z.of_nat m))))
        < needed.
Proof.
  induction remaining as [|n IH]; intros i acc st Hacc; simpl.
  - exists 0%nat. split; [by rewrite app_nil_r | intros; lia].
  - set (p0 := first st / rows st + i + 1).
    assert (Hone : seqZ p0 1 = [p0]) by (by rewrite seqZ_cons, seqZ_nil by lia).
    assert (Hfirst : ∀ m : nat, (m < 1)%nat →
              Z.of_nat (length acc)
              + Z.of_nat (length (concat (pageRecords get (rows st)
                                            <$> seqZ p0 (Z.of_nat m)))) < needed).
    { intros m Hm. replace m with 0%nat by lia. simpl. lia. }
    destruct (get p0 (rows st)) as [|b] eqn:Hget.
    + exists 1%nat. proj_simpl. change (Z.of_nat 1) with 1. by rewrite Hone.
    + rewrite slice0_nonneg by lia.
      set (acc' := acc ++ take _ (data b)).
      destruct (Z.eqb_spec (Z.of_nat (length acc')) needed) as [Hfull|Hnot].
      * exists 1%nat. proj_simpl. change (Z.of_nat 1) with 1. by rewrite Hone.
      * assert (Hlen : Z.of_nat (length acc') ≤ needed).
        { unfold acc'. rewrite length_app, length_take. lia. }
        assert (Hall : acc' = acc ++ data b).
        { unfold acc'. f_equal. apply take_short.
          unfold acc' in Hlen, Hnot. rewrite length_app in Hlen, Hnot. lia. }
        destruct (IH (i + 1) acc' (logRequest p0 (rows st) st)) as (k & Hreq & Hlean);
          [lia |].
        proj_simpl.
        replace (first st / rows st + (i + 1) + 1) with (p0 + 1) in * by (unfold p0; lia).
        assert (Hseq : ∀ j : nat, seqZ p0 (Z.of_nat (S j)) = p0 :: seqZ (p0 + 1) (Z.of_nat j)).
        { intros j. rewrite seqZ_cons by lia. do 2 f_equal; lia. }
        exists (S k). split.
        -- by rewrite Hreq, Hseq, <- app_assoc.
        -- intros [|m] Hm; [simpl; lia |].
           rewrite Hseq. cbn [fmap list_fmap concat].
           unfold pageRecords at 1. rewrite Hget, length_app.
           specialize (Hlean m ltac:(lia)).
           rewrite Hall, length_app in Hlean. lia.
Qed.

(** X11: in the expansion branch no page is requested once the quota is
    met: before each request, the pages requested so far hold fewer than
    [needed] records. *)
Theorem expansion_no_request_after_quota get st target (m : nat) :
  numberInput st = Some target →
  Z.of_nat (size (selectedArtworks st)) < target →
  let needed := target - Z.of_nat (size (selectedArtworks st)) in
  let st' := handleCustomSelection get st in
  (m < length (issued st st'))%nat →
  Z.of_nat (length (concat (pageRecords get (rows st)
                              <$> seqZ (displayedPage st) (Z.of_nat m))))
  < needed.
Proof.
  intros Hn Hlt needed st' Hm. subst st'.
  rewrite (handleCustomSelection_expand get st target Hn Hlt) in Hm.
  unfold expansionRun in Hm. rewrite Object_keys_length in Hm. fold needed in Hm.
  assert (Hnil : Z.of_nat (length (@nil Artwork)) < needed) by (simpl; lia).
  destruct (fetchLoop_lean get needed (Z.to_nat (ceilDiv needed (rows st))) 0 [] st Hnil)
    as (k & Hreq & Hlean).
  replace (first st / rows st + 0 + 1) with (displayedPage st) in *
    by (unfold displayedPage; lia).
  unfold issued in Hm. simpl in Hm.
  rewrite Hreq, drop_app_length, length_fmap, length_seqZ in Hm.
  specialize (Hlean m ltac:(lia)). simpl in Hlean. lia.
Qed.

Lemma expansion_no_request_after_quota_witness :
  length (issued st3 (handleCustomSelection (catalogue 1000) st3)) = 2%nat
  ∧ Z.of_nat (length (concat (pageRecords (catalogue 1000) (rows st3)
                                <$> seqZ (displayedPage st3) (Z.of_nat 1))))
    < 20 - Z.of_nat (size (selectedArtworks st3)).
Proof.
  split; [vm_compute; reflexivity |].
  apply (expansion_no_request_after_quota (catalogue 1000) st3 20 1);
    [reflexivity | vm_compute; reflexivity | vm_compute; lia].
Defined.

(** ** An invariant of the component *)

Lemma submit_without_number get st :
  numberInput st = None → handleCustomSelection get st = st.
Proof. intros Hn. unfold handleCustomSelection. by rewrite Hn. Qed.

Lemma keyedById_onSelectionChange value st :
  keyedById (selectedArtworks st) →
  keyedById (selectedArtworks (onSelectionChange value st)).
Proof.
  intros Hkeyed k a. rewrite onSelectionChange_closed_form.
  destruct (findById k (reverse value)) as [b|] eqn:Hlast.
  - intros [= <-]. by apply findById_elem in Hlast as [_ ?].
  - case_bool_decide; [done | apply Hkeyed].
Qed.

Lemma keyedById_handleCustomSelection get st :
  keyedById (selectedArtworks st) →
  keyedById (selectedArtworks (handleCustomSelection get st)).
Proof.
  intros Hkeyed k a.
  destruct (numberInput st) as [n|] eqn:Hn.
  - destruct (Z.le_gt_cases n (Z.of_nat (size (selectedArtworks st)))) as [Hle|Hgt].
    + rewrite (trim_closed_form get st n Hn Hle).
      case_bool_decide; [apply Hkeyed | done].
    + rewrite (handleCustomSelection_expand get st n Hn Hgt). simpl.
      rewrite lookup_foldl_addIfAbsent.
      destruct (selectedArtworks st !! k) as [b|] eqn:Hk.
      * intros [= <-]. by apply Hkeyed.
      * intros Hfind. by apply findById_elem in Hfind as [_ ?].
  - rewrite (submit_without_number get st Hn). apply Hkeyed.
Qed.

Lemma keyedById_handle st ev :
  keyedById (selectedArtworks st) → keyedById (selectedArtworks (handle st ev)).
Proof.
  intros Hkeyed. destruct ev as [get|get f r p|value| |value|get]; simpl.
  - unfold mount. by rewrite fetchArtworks_selectedArtworks.
  - unfold onPageChange. by rewrite fetchArtworks_selectedArtworks.
  - by apply keyedById_onSelectionChange.
  - done.
  - done.
  - by apply keyedById_handleCustomSelection.
Qed.

Lemma keyedById_run evs : ∀ st,
  keyedById (selectedArtworks st) → keyedById (selectedArtworks (run evs st)).
Proof.
  unfold run. induction evs as [|ev evs IH]; intros st Hkeyed; simpl; [done |].
  by apply IH, keyedById_handle.
Qed.

(** X12: whatever events the component handles after its first render, and
    whatever the server answers, every record of the selection is stored
    under its own identifier. *)
Theorem selection_keyed_by_id (evs : list Event) :
  keyedById (selectedArtworks (run evs initialState)).
Proof.
  apply keyedById_run. intros k a. simpl. by rewrite lookup_empty.
Qed.

(** ** Submitting twice *)

Lemma foldl_addIfAbsent_selected (l : list Artwork) (sel : gmap Z Artwork) :
  (∀ a, a ∈ l → is_Some (sel !! id a)) → foldl addIfAbsent sel l = sel.
Proof.
  induction l as [|a l IH]; intros Hsel; simpl; [done |].
  assert (Ha : addIfAbsent sel a = sel).
  { unfold addIfAbsent. by destruct (Hsel a ltac:(left)) as [b ->]. }
  rewrite Ha. apply IH. intros b Hb. apply Hsel. by right.
Qed.

Lemma pages_prefix get limit p0 (k k' : nat) :
  (k ≤ k')%nat →
  ∃ rest, concat (pageRecords get limit <$> seqZ p0 (Z.of_nat k'))
          = concat (pageRecords get limit <$> seqZ p0 (Z.of_nat k)) ++ rest.
Proof.
  intros Hk. replace k' with (k + (k' - k))%nat by lia.
  rewrite Nat2Z.inj_add, seqZ_app, fmap_app, concat_app by lia.
  by eexists.
Qed.

(** The records a second, smaller quota takes are among those the first
    took, when the first run met its quota or requested as many pages. *)
Lemma take_pages_subset get limit p0 (k1 k2 n1 n2 : nat) a :
  (n2 ≤ n1)%nat →
  (n1 ≤ length (concat (pageRecords get limit <$> seqZ p0 (Z.of_nat k1))) ∨ k2 ≤ k1)%nat →
  a ∈ take n2 (concat (pageRecords get limit <$> seqZ p0 (Z.of_nat k2))) →
  a ∈ take n1 (concat (pageRecords get limit <$> seqZ p0 (Z.of_nat k1))).
Proof.
  intros Hn Hcase (i & Hi & Hlt)%elem_of_take.
  apply elem_of_take. exists i. split; [| lia].
  destruct (decide (k2 ≤ k1)%nat) as [Hk|Hk].
  - destruct (pages_prefix get limit p0 k2 k1 Hk) as [rest ->].
    by apply lookup_app_l_Some.
  - destruct Hcase as [Hlen|?]; [| lia].
    destruct (pages_prefix get limit p0 k1 k2 ltac:(lia)) as [rest Hrest].
    rewrite Hrest in Hi. by rewrite lookup_app_l in Hi by lia.
Qed.

Lemma ceilDiv_mono a a' b : 0 < b → a ≤ a' → ceilDiv a b ≤ ceilDiv a' b.
Proof.
  intros Hb Ha. unfold ceilDiv.
  assert (- a' / b ≤ - a / b) by (apply Z.div_le_mono; lia). lia.
Qed.

Lemma trim_all_kept get st n :
  numberInput st = Some n →
  n = Z.of_nat (size (selectedArtworks st)) →
  selectedArtworks (handleCustomSelection get st) = selectedArtworks st.
Proof.
  intros Hn Hsize.
  assert (Hle : n ≤ Z.of_nat (size (selectedArtworks st))) by lia.
  apply map_eq. intros k. rewrite (trim_closed_form get st n Hn Hle).
  assert (Hall : keptCount n (size (selectedArtworks st)) = size (selectedArtworks st)).
  { unfold keptCount. destruct (Z.ltb_spec n 0); lia. }
  rewrite Hall, take_ge by (by rewrite sortedKeys_length).
  case_bool_decide as Hin; [done |].
  rewrite sortedKeys_elem in Hin. symmetry. by apply eq_None_not_Some.
Qed.

(** X13: with a number of at least 0 entered and an unchanged server, a
    second submit never changes the selection the first one left: after a
    trim the size equals the number, and after an expansion that fell short
    of the target the second run collects only records the first run
    already collected. *)
Theorem submit_twice get st n :
  numberInput st = Some n →
  0 ≤ n →
  0 < rows st →
  selectedArtworks (handleCustomSelection get (handleCustomSelection get st))
  = selectedArtworks (handleCustomSelection get st).
Proof.
  intros Hn Hpos Hrows.
  set (st1 := handleCustomSelection get st).
  destruct (Z.le_gt_cases n (Z.of_nat (size (selectedArtworks st)))) as [Hle|Hgt].
  - (* the shrink branch: the size is now [n] *)
    apply (trim_all_kept get st1 n).
    + unfold st1. by rewrite (handleCustomSelection_trim get st n Hn Hle).
    + unfold st1. rewrite (trim_size get st n Hn Hle).
      unfold keptCount. destruct (Z.ltb_spec n 0); lia.
  - (* the expansion branch *)
    destruct (expansion_summary get st n Hn Hgt)
      as (Hsel1 & k1 & Hk1 & _ & _ & Hcoll1 & Hend1).
    fold st1 in Hsel1, Hend1.
    set (coll1 := collected get n st) in *.
    set (sel := selectedArtworks st) in *.
    set (needed1 := n - Z.of_nat (size sel)) in *.
    set (p0 := displayedPage st) in *.
    assert (Hframe : numberInput st1 = Some n ∧ first st1 = first st ∧ rows st1 = rows st).
    { unfold st1. rewrite (handleCustomSelection_expand get st n Hn Hgt). simpl.
      pose proof (fetchLoop_frame get
                    (n - Z.of_nat (length (Object_keys (selectedArtworks st))))
                    (Z.to_nat (ceilDiv (n - Z.of_nat (length (Object_keys (selectedArtworks st))))
                                       (rows st))) 0 [] st)
        as (_ & _ & Hf & Hr & _ & Hi & _).
      unfold expansionRun. by rewrite Hf, Hr, Hi. }
    destruct Hframe as (Hn1 & Hfirst1 & Hrows1).
    assert (Hp0 : displayedPage st1 = p0).
    { unfold p0, displayedPage. by rewrite Hfirst1, Hrows1. }
    assert (Hneeded1 : needed1 = n - Z.of_nat (size sel)) by done.
    clearbody coll1 needed1 p0.
    assert (Hsize1 : size (selectedArtworks st1)
                     = (size sel + length (freshIds sel coll1))%nat).
    { rewrite Hsel1. apply size_foldl_addIfAbsent. }
    assert (Hcoll1_len : Z.of_nat (length coll1) ≤ needed1).
    { rewrite Hcoll1, length_take. lia. }
    pose proof (length_freshIds_le sel coll1) as Hfresh.
    destruct (Z.le_gt_cases n (Z.of_nat (size (selectedArtworks st1)))) as [Hle1|Hgt1].
    { apply (trim_all_kept get st1 n Hn1). lia. }
    destruct (expansion_summary get st1 n Hn1 Hgt1)
      as (Hsel2 & k2 & Hk2 & _ & _ & Hcoll2 & Hend2).
    rewrite Hsel2. apply foldl_addIfAbsent_selected. intros a Ha.
    apply elem_of_dom. rewrite Hsel1, dom_foldl_addIfAbsent, elem_of_union. right.
    apply elem_of_list_to_set, list_elem_of_fmap. exists a. split; [done |].
    rewrite Hcoll2 in Ha. rewrite Hcoll1.
    remember (n - Z.of_nat (size (selectedArtworks st1))) as needed2 eqn:Hneeded2.
    rewrite Hp0, Hrows1 in *.
    apply (take_pages_subset get (rows st) p0 k1 k2 _ (Z.to_nat needed2));
      [lia | | done].
    assert (Hmono : ceilDiv needed2 (rows st) ≤ ceilDiv needed1 (rows st)).
    { apply ceilDiv_mono; [done | lia]. }
    destruct Hend1 as [(_ & _ & [Hbudget|Hquota]) | (_ & Hk10 & Hrej1 & Hok1 & _)].
    + right. lia.
    + left. rewrite Hcoll1, length_take in Hquota. lia.
    + right.
      destruct Hend2 as [(_ & Hok2 & _) | (_ & Hk20 & Hrej2 & Hok2 & _)].
      * destruct (decide (k2 ≤ k1)%nat) as [|Hk]; [done |].
        destruct (Hok2 (p0 + Z.of_nat k1 - 1)); [lia | done].
      * destruct (decide (k2 ≤ k1)%nat) as [|Hk]; [done |].
        destruct (Hok2 (p0 + Z.of_nat k1 - 1)); [lia | done].
Qed.

Lemma submit_twice_witness :
  let st1 := handleCustomSelection (catalogue 100) stStale in
  size (selectedArtworks st1) = 1%nat
  ∧ selectedArtworks (handleCustomSelection (catalogue 100) st1)
    = selectedArtworks st1.
Proof.
  split; [vm_compute; reflexivity |].
  apply (submit_twice (catalogue 100) stStale 2); [reflexivity | lia | reflexivity].
Defined.
